(** * ghostmark: the watermarking tool [watermark.py]

    A shallow embedding of the [Watermarker] class of [watermark.py] and the
    properties of its geometry, colour resolution, compositing and batch
    driver.

    Python integers are [Z]; Python floats are IEEE-754 binary64 numbers,
    modelled in [Float64] as dyadic rationals with round-to-nearest-even;
    strings are [string] (byte strings: the model covers ASCII text). *)

From Stdlib Require Import ZArith Lia Bool List String Ascii.
From Stdlib Require Import Floats.
Import ListNotations.
Local Open Scope Z_scope.

(* ================================================================== *)
(** ** Binary64 arithmetic, as far as [watermark.py] uses it *)
(* ================================================================== *)

Module Float64.

(** A finite double: the dyadic rational [mant * 2 ^ expo].  The
    representation is not normalised; signed zeros are identified. *)
Record float : Set := mk { mant : Z; expo : Z }.

Definition prec : Z := 53.
Definition emin : Z := -1074.

(** Nearest integer to [p / q] ([0 <= p], [0 < q]), ties to even. *)
Definition rne (p q : Z) : Z :=
  let k := p / q in
  let r := p mod q in
  if 2 * r <? q then k
  else if q <? 2 * r then k + 1
  else if k mod 2 =? 0 then k else k + 1.

(** [p / (q * 2 ^ e)] as a fraction of integers. *)
Definition scale2 (e p q : Z) : Z * Z :=
  if 0 <=? e then (p, q * 2 ^ e) else (p * 2 ^ (- e), q).

(** The binade of [p / q]: the [b] with [2 ^ b <= p / q < 2 ^ (b + 1)]. *)
Definition binade (p q : Z) : Z :=
  let d := Z.log2 p - Z.log2 q in
  let '(p', q') := scale2 d p q in
  if q' <=? p' then d else d - 1.

(** [2 ^ b <= p / q < 2 ^ (b + 1)], on integers. *)
Definition in_binade (b p q : Z) : Prop :=
  let '(p', q') := scale2 b p q in q' <= p' < 2 * q'.

(** Correct rounding of the positive rational [p / q] to binary64
    (53 significant bits, gradual underflow below [2 ^ -1022]). *)
Definition round_pos (p q : Z) : float :=
  let e := Z.max (binade p q - (prec - 1)) emin in
  let '(p', q') := scale2 e p q in
  mk (rne p' q') e.

Definition fneg (a : float) : float := mk (- mant a) (expo a).

(** Correct rounding of the rational [p / q], [0 < q]. *)
Definition round_q (p q : Z) : float :=
  match p with
  | 0 => mk 0 0
  | Zpos _ => round_pos p q
  | Zneg _ => fneg (round_pos (- p) q)
  end.

(** [float(n)] of a Python int within the range of binary64.  Beyond
    that range Python raises [OverflowError] where this definition rounds;
    the theorems that depend on the conversion bound the sizes they speak
    of. *)
Definition of_int (n : Z) : float :=
  if Z.abs n <? 2 ^ prec then mk n 0 else round_q n 1.

(** [a * b] *)
Definition fmul (a b : float) : float :=
  let '(p, q) := scale2 (- (expo a + expo b)) (mant a * mant b) 1 in
  round_q p q.

(** [a / b]; [None] is Python's [ZeroDivisionError]. *)
Definition fdiv (a b : float) : option float :=
  if mant b =? 0 then None
  else
    let '(p, q) := scale2 (expo b - expo a) (mant a) (mant b) in
    Some (if 0 <? q then round_q p q else round_q (- p) (- q)).

(** [int(a)]: truncation toward zero. *)
Definition to_int (a : float) : Z :=
  if 0 <=? expo a then mant a * 2 ^ expo a
  else Z.quot (mant a) (2 ^ (- expo a)).

(** [a < b] *)
Definition ltb (a b : float) : bool :=
  let e := Z.min (expo a) (expo b) in
  mant a * 2 ^ (expo a - e) <? mant b * 2 ^ (expo b - e).

(** The literals of [watermark.py]. *)
Definition c0_05 : float := mk 7205759403792794 (-57).   (* 0.05 *)
Definition c0_1  : float := mk 7205759403792794 (-56).   (* 0.1  *)
Definition c0_15 : float := mk 5404319552844595 (-55).   (* 0.15 *)
Definition c0_3  : float := mk 5404319552844595 (-54).   (* 0.3  *)
Definition c0_5  : float := mk 1 (-1).                   (* 0.5  *)
Definition c1_0  : float := mk 1 0.                      (* 1.0  *)

(** The same value as a [spec_float] of the standard library, to compare
    the model with the machine's doubles. *)
Definition to_spec (a : float) : spec_float :=
  match mant a with
  | 0 => S754_zero false
  | Zpos m => S754_finite false m (expo a)
  | Zneg m => S754_finite true m (expo a)
  end.

Definition same_value (a : float) (x : PrimFloat.float) : bool :=
  match to_spec a, Prim2SF x with
  | S754_zero _, S754_zero _ => true
  | S754_finite s m e, S754_finite s' m' e' =>
      Bool.eqb s s' &&
      (let k := Z.min e e' in
       Z.pos m * 2 ^ (e - k) =? Z.pos m' * 2 ^ (e' - k))
  | _, _ => false
  end.

End Float64.

(* ================================================================== *)
(** ** Python values used by the tool *)
(* ================================================================== *)

Module Py.
Import Float64.

(** A number that is an [int] or a [float], as the entries of
    [POSITIONS] are ([0], [1] and [0.5]). *)
Inductive num : Set :=
| Int (n : Z)
| Float (x : float).

(** [n * f] for an int [n] *)
Definition int_mul (n : Z) (f : num) : num :=
  match f with
  | Int k => Int (n * k)
  | Float x => Float (fmul (of_int n) x)
  end.

(** [int(v)] *)
Definition int (v : num) : Z :=
  match v with
  | Int n => n
  | Float x => to_int x
  end.

(** [f == n] for an int literal [n] *)
Definition eq_int (f : num) (n : Z) : bool :=
  match f with
  | Int k => k =? n
  | Float x =>
      if 0 <=? expo x then mant x * 2 ^ expo x =? n
      else mant x =? n * 2 ^ (- expo x)
  end.

(** [d.get(key, default)] on a dict written as a literal. *)
Fixpoint dict_get {V : Type} (d : list (string * V)) (key : string)
         (default : V) : V :=
  match d with
  | [] => default
  | (k, v) :: d' => if String.eqb k key then v else dict_get d' key default
  end.

(** [key in d] *)
Fixpoint dict_mem {V : Type} (d : list (string * V)) (key : string) : bool :=
  match d with
  | [] => false
  | (k, _) :: d' => String.eqb k key || dict_mem d' key
  end.

(** Truth value of an optional string ([None] and [""] are false). *)
Definition truthy (s : option string) : bool :=
  match s with
  | None => false
  | Some EmptyString => false
  | Some _ => true
  end.

(** [str.lower()] on ASCII text. *)
Definition lower_ascii (c : ascii) : ascii :=
  let n := N_of_ascii c in
  if ((65 <=? n) && (n <=? 90))%N then ascii_of_N (n + 32) else c.

Fixpoint lower (s : string) : string :=
  match s with
  | EmptyString => EmptyString
  | String c s' => String (lower_ascii c) (lower s')
  end.

Definition len (s : string) : Z := Z.of_nat (String.length s).

End Py.

(* ================================================================== *)
(** ** The configuration and the images *)
(* ================================================================== *)

(** The [argparse] namespace handed to [Watermarker.__init__].
    [pixel_size = None] is a namespace without that attribute. *)
Record Config : Type := mkConfig {
  input_folder : string;
  output_folder : string;
  text : option string;
  image_path : option string;
  position : string;
  opacity : Float64.float;
  size : string;
  pixel_size : option Z;
  text_color : string;
  prefix : string
}.

Definition set_position (c : Config) (p : string) : Config :=
  mkConfig (input_folder c) (output_folder c) (text c) (image_path c) p
           (opacity c) (size c) (pixel_size c) (text_color c) (prefix c).

Definition set_image_path (c : Config) (p : option string) : Config :=
  mkConfig (input_folder c) (output_folder c) (text c) p (position c)
           (opacity c) (size c) (pixel_size c) (text_color c) (prefix c).

(** A pixel is the tuple of its band values, as [getpixel] returns it:
    [[r; g; b; a]] in mode RGBA, [[r; g; b]] in RGB, [[l]] in L, the
    palette index in P. *)
Definition Pixel : Set := list Z.

(** A decoded raster: [PIL.Image.Image]. *)
Record Image : Type := mkImage {
  mode : string;
  width : Z;
  height : Z;
  getpixel : Z -> Z -> Pixel
}.

(** Python's [int(s, 16)] on ASCII text: surrounding whitespace, a sign,
    an optional [0x] prefix, then hexadecimal digits that single
    underscores may separate.  [None] is [ValueError]. *)
Module Int16.

(** The whitespace [int] strips from an ASCII string: tab, line feed,
    vertical tab, form feed, carriage return and the space.  The
    separators 28 to 31, which [str.isspace] accepts, are not among
    them. *)
Definition is_space (c : ascii) : bool :=
  let n := N_of_ascii c in
  (((9 <=? n) && (n <=? 13)) || (n =? 32))%N.

Definition digit (c : ascii) : option Z :=
  let n := Z.of_N (N_of_ascii c) in
  if (48 <=? n) && (n <=? 57) then Some (n - 48)
  else if (97 <=? n) && (n <=? 102) then Some (n - 87)
  else if (65 <=? n) && (n <=? 70) then Some (n - 55)
  else None.

Fixpoint lstrip (s : list ascii) : list ascii :=
  match s with
  | c :: s' => if is_space c then lstrip s' else s
  | [] => []
  end.

Definition strip (s : list ascii) : list ascii :=
  rev (lstrip (rev (lstrip s))).

(** The digits after the sign and the prefix.  [acc] is the value read
    so far; [after_digit] tells that the previous character was a digit
    (an underscore must stand between two digits). *)
Fixpoint digits (s : list ascii) (acc : Z) (after_digit : bool) : option Z :=
  match s with
  | [] => if after_digit then Some acc else None
  | c :: s' =>
      if Ascii.eqb c "_" then
        if after_digit then digits s' acc false else None
      else
        match digit c with
        | Some d => digits s' (16 * acc + d) true
        | None => None
        end
  end.

Definition unsigned (s : list ascii) : option Z :=
  match s with
  | c0 :: cx :: s' =>
      if Ascii.eqb c0 "0" && (Ascii.eqb cx "x" || Ascii.eqb cx "X") then
        match s' with
        | u :: s'' => if Ascii.eqb u "_" then digits s'' 0 false
                      else digits s' 0 false
        | [] => None
        end
      else digits s 0 false
  | _ => digits s 0 false
  end.

Definition parse (s : string) : option Z :=
  match strip (list_ascii_of_string s) with
  | c :: s' =>
      if Ascii.eqb c "+" then unsigned s'
      else if Ascii.eqb c "-" then option_map Z.opp (unsigned s')
      else unsigned (c :: s')
  | [] => None
  end.

End Int16.

(* ================================================================== *)
(** ** Pillow: the operations [watermark.py] calls *)
(* ================================================================== *)

Module PIL.
Import Float64.

(** What the model takes from Pillow and the file system without
    looking inside. *)
Record Library : Type := mkLibrary {
  (** [Image.open(path)]; [None] when the file is missing or does not
      decode. *)
  open_file : string -> option Image;
  (** [im.convert(mode)] for the pairs of modes not written out in
      [convert]: the pixels of the converted image. *)
  convert_other : string -> Image -> Z -> Z -> Pixel;
  (** [self.font.font_variant(size=...)], [draw.textbbox((0, 0), text)]
      and the glyph coverage [draw.text] paints with: the right and
      bottom edge of the box, and the coverage (0..255) at an offset
      from the drawing position.  [None] when the font raises. *)
  rasterize : Z -> string -> option (Z * Z * (Z -> Z -> Z));
  (** the value [draw.text] leaves in a colour band: coverage, alpha of
      the pixel drawn on, old band value, ink *)
  draw_band : Z -> Z -> Z -> Z -> Z;
  (** the pixels of [im.resize((w, h), LANCZOS)]; [None] when Pillow
      refuses the size *)
  resample : Image -> Z -> Z -> option (Z -> Z -> Pixel);
  (** [Image.blend] of black and an alpha value, for a factor other
      than [0.0] *)
  scale_alpha : float -> Z -> Z;
  (** [im.save(path)]: [true] when the file was written *)
  save : string -> Image -> bool
}.

(** [DIV255] and [BLEND8] of Pillow's compositing code. *)
Definition div255 (a : Z) : Z :=
  let t := a + 128 in Z.shiftr (Z.shiftr t 8 + t) 8.

Definition blend8 (mask in1 in2 : Z) : Z :=
  div255 (in1 * (255 - mask) + in2 * mask).

Definition clip8 (v : Z) : Z := Z.max 0 (Z.min 255 v).

(** [Image.new(mode, size, color)] *)
Definition new (m : string) (w h : Z) (color : Pixel) : Image :=
  mkImage m w h (fun _ _ => color).

Definition inside (im : Image) (i j : Z) : bool :=
  (0 <=? i) && (i <? width im) && (0 <=? j) && (j <? height im).

(** the alpha band of an RGBA pixel: [im.split()[3]] *)
Definition alpha_of (p : Pixel) : Z :=
  match p with
  | [_; _; _; a] => a
  | _ => 0
  end.

(** [putalpha] on one pixel: the alpha band replaced by [f] of it *)
Definition with_alpha (f : Z -> Z) (p : Pixel) : Pixel :=
  match p with
  | [r; g; b; a] => [r; g; b; f a]
  | _ => p
  end.

(** The bands of [dst] blended with the bands of [src] by the mask value
    [a], band by band. *)
Fixpoint blend_bands (a : Z) (dst src : Pixel) : Pixel :=
  match dst, src with
  | o :: dst', v :: src' => blend8 a o v :: blend_bands a dst' src'
  | _, _ => dst
  end.

Section WithLibrary.
Variable lib : Library.

(** [im.convert(mode)] *)
Definition convert (m : string) (im : Image) : Image :=
  mkImage m (width im) (height im)
    (fun i j =>
       if String.eqb (mode im) m then getpixel im i j
       else if String.eqb m "RGBA" && String.eqb (mode im) "RGB" then
         match getpixel im i j with
         | [r; g; b] => [r; g; b; 255]
         | p => p
         end
       else if String.eqb m "RGBA" && String.eqb (mode im) "L" then
         match getpixel im i j with
         | [l] => [l; l; l; 255]
         | p => p
         end
       else convert_other lib m im i j).

(** [Image.alpha_composite(dst, src)], one pixel *)
Definition composite_pixel (dst src : Pixel) : Pixel :=
  match src with
  | [sr; sg; sb; sa] =>
      if sa =? 0 then dst
      else
        match dst with
        | [dr; dg; db; da] =>
            let blend := da * (255 - sa) in
            let outa255 := sa * 255 + blend in
            let coef1 := sa * 255 * 255 * 128 / outa255 in
            let coef2 := 255 * 128 - coef1 in
            let band s d :=
              Z.shiftr (div255 (s * coef1 + d * coef2 + 128 * 128 - 128)) 7 in
            [band sr dr; band sg dg; band sb db; div255 outa255]
        | _ => dst
        end
  | _ => dst
  end.

Definition alpha_composite (dst src : Image) : Image :=
  mkImage "RGBA" (width dst) (height dst)
    (fun i j => composite_pixel (getpixel dst i j) (getpixel src i j)).

(** [dst.paste(im, (x, y))] *)
Definition paste (dst im : Image) (x y : Z) : Image :=
  mkImage (mode dst) (width dst) (height dst)
    (fun i j =>
       if inside dst i j && inside im (i - x) (j - y)
       then getpixel im (i - x) (j - y)
       else getpixel dst i j).

(** [dst.paste(im, (x, y), mask)] with an RGBA mask: every band is
    blended by the mask's alpha. *)
Definition paste_masked (dst im : Image) (x y : Z) (mask : Image) : Image :=
  mkImage (mode dst) (width dst) (height dst)
    (fun i j =>
       if inside dst i j && inside im (i - x) (j - y)
       then
         blend_bands (alpha_of (getpixel mask (i - x) (j - y)))
                     (getpixel dst i j) (getpixel im (i - x) (j - y))
       else getpixel dst i j).

(** [draw.text((x, y), text, fill=ink)] on an RGBA image *)
Definition draw_text (im : Image) (x y : Z) (cover : Z -> Z -> Z)
           (ink : Pixel) : Image :=
  mkImage (mode im) (width im) (height im)
    (fun i j =>
       match getpixel im i j, ink with
       | [r; g; b; a], [ir; ig; ib; ia] =>
           let c := cover (i - x) (j - y) in
           [draw_band lib c a r ir; draw_band lib c a g ig;
            draw_band lib c a b ib; blend8 c a ia]
       | p, _ => p
       end).

(** [ImageEnhance.Brightness(alpha).enhance(factor)] followed by
    [putalpha]: the alpha band scaled by [factor]. *)
Definition enhance_alpha (factor : float) (im : Image) : Image :=
  mkImage (mode im) (width im) (height im)
    (fun i j =>
       with_alpha
         (fun a => if mant factor =? 0 then 0 else scale_alpha lib factor a)
         (getpixel im i j)).

(** [im.resize((w, h), Image.Resampling.LANCZOS)] *)
Definition resize (im : Image) (w h : Z) : option Image :=
  option_map (mkImage (mode im) w h) (resample lib im w h).

End WithLibrary.

End PIL.

(* ================================================================== *)
(** ** class [Watermarker] *)
(* ================================================================== *)

Module Watermarker.
Import Float64 Py PIL.
Local Open Scope string_scope.
Local Open Scope Z_scope.

Definition POSITIONS : list (string * (num * num * string * string)) :=
  [ ("top-left",      (Int 0,        Int 0,        "left",   "top"));
    ("top-center",    (Float c0_5,   Int 0,        "center", "top"));
    ("top-right",     (Int 1,        Int 0,        "right",  "top"));
    ("center-left",   (Int 0,        Float c0_5,   "left",   "middle"));
    ("center",        (Float c0_5,   Float c0_5,   "center", "middle"));
    ("center-right",  (Int 1,        Float c0_5,   "right",  "middle"));
    ("bottom-left",   (Int 0,        Int 1,        "left",   "bottom"));
    ("bottom-center", (Float c0_5,   Int 1,        "center", "bottom"));
    ("bottom-right",  (Int 1,        Int 1,        "right",  "bottom")) ].

Definition SIZE_FACTORS : list (string * float) :=
  [ ("small", c0_05); ("medium", c0_1); ("large", c0_15) ].

Definition COLORS : list (string * (Z * Z * Z)) :=
  [ ("white",   (255, 255, 255));
    ("black",   (0, 0, 0));
    ("red",     (255, 0, 0));
    ("green",   (0, 255, 0));
    ("blue",    (0, 0, 255));
    ("yellow",  (255, 255, 0));
    ("cyan",    (0, 255, 255));
    ("magenta", (255, 0, 255));
    ("gray",    (128, 128, 128));
    ("orange",  (255, 165, 0));
    ("purple",  (128, 0, 128));
    ("pink",    (255, 192, 203)) ].

(** *** Methods

    A method reads and may assign [self.config], and returns or raises
    ([None]).  The configuration a raising method leaves behind is kept,
    as in Python. *)
Definition M (A : Type) : Type := Config -> option A * Config.

Definition ret {A : Type} (a : A) : M A := fun c => (Some a, c).

Definition raise {A : Type} : M A := fun c => (None, c).

Definition bind {A B : Type} (m : M A) (k : A -> M B) : M B :=
  fun c =>
    match m c with
    | (Some a, c') => k a c'
    | (None, c') => (None, c')
    end.

Definition config : M Config := fun c => (Some c, c).

Definition assign_position (p : string) : M unit :=
  fun c => (Some tt, set_position c p).

(** a value that may be missing, where its absence raises *)
Definition or_raise {A : Type} (o : option A) : M A := fun c => (o, c).

(** [try: m  except Exception: h] *)
Definition try_except {A : Type} (m h : M A) : M A :=
  fun c =>
    match m c with
    | (Some a, c') => (Some a, c')
    | (None, c') => h c'
    end.

Notation "x <- m ;; k" := (bind m (fun x => k))
  (at level 61, m at next level, right associativity).
Notation "' pat <- m ;; k" := (bind m (fun x => match x with pat => k end))
  (at level 61, pat pattern, m at next level, right associativity).

Definition _calculate_size (image : Image) : M Z :=
  cfg <- config ;;
  if match pixel_size cfg with
     | Some p => 0 <? p
     | None => false
     end
  then or_raise (pixel_size cfg)
  else
    let min_dimension := Z.min (width image) (height image) in
    let factor := dict_get SIZE_FACTORS (size cfg) c0_3 in
    ret (to_int (fmul (of_int min_dimension) factor)).

(** [d[key]]: [KeyError] when the key is missing *)
Fixpoint dict_item {V : Type} (d : list (string * V)) (key : string)
  : option V :=
  match d with
  | [] => None
  | (k, v) :: d' => if String.eqb k key then Some v else dict_item d' key
  end.

Definition _calculate_position (image : Image)
           (watermark_width watermark_height : Z) : M (Z * Z) :=
  cfg <- config ;;
  _ <- (if negb (dict_mem POSITIONS (position cfg))
        then assign_position "bottom-right"
        else ret tt) ;;
  cfg <- config ;;
  '(x_factor, y_factor, _, _) <- or_raise (dict_item POSITIONS (position cfg)) ;;
  let base_margin := fmul (of_int (Z.min (width image) (height image))) c0_05 in
  let margin :=
    if eq_int x_factor 0 || eq_int x_factor 1
       || eq_int y_factor 0 || eq_int y_factor 1
    then to_int base_margin
    else to_int (fmul base_margin c0_5) in
  let x := Py.int (int_mul (width image - watermark_width) x_factor) in
  let y := Py.int (int_mul (height image - watermark_height) y_factor) in
  let x :=
    if eq_int x_factor 0 then margin
    else if eq_int x_factor 1 then width image - watermark_width - margin
    else x in
  let y :=
    if eq_int y_factor 0 then margin
    else if eq_int y_factor 1 then height image - watermark_height - margin
    else y in
  ret (x, y).

(** The colour of the text: lines 166 to 186 of [add_text_watermark]. *)
Definition hex_color (text_color : string) : option (Z * Z * Z) :=
  if len text_color =? 4 then
    let c k := String.substring k 1 text_color in
    match Int16.parse (c 1%nat ++ c 1%nat),
          Int16.parse (c 2%nat ++ c 2%nat),
          Int16.parse (c 3%nat ++ c 3%nat) with
    | Some r, Some g, Some b => Some (r, g, b)
    | _, _, _ => None
    end
  else
    match Int16.parse (String.substring 1 2 text_color),
          Int16.parse (String.substring 3 2 text_color),
          Int16.parse (String.substring 5 2 text_color) with
    | Some r, Some g, Some b => Some (r, g, b)
    | _, _, _ => None
    end.

Definition resolve_color (configured : string) : Z * Z * Z :=
  let text_color := lower configured in
  if String.prefix "#" text_color
     && ((len text_color =? 4) || (len text_color =? 7))
  then
    match hex_color text_color with
    | Some color => color
    | None => dict_get COLORS text_color (255, 255, 255)
    end
  else dict_get COLORS text_color (255, 255, 255).

(** [int(255 * opacity)]; [OverflowError] when the product is infinite *)
Definition fill_alpha (o : float) : option Z :=
  let v := to_int (fmul (of_int 255) o) in
  if Z.abs v <? 2 ^ 1024 then Some v else None.

(** an entry of [input_dir.iterdir()] *)
Record DirEntry : Set := mkEntry { name : string; is_file : bool }.

(** what a run has written and counted *)
Record Report : Type := mkReport {
  saved : list (string * Image);
  processed_count : Z;
  error_count : Z
}.

(** The standard output.  [encodes s] tells whether its encoding has
    every character of [s]; [print(s)] raises [UnicodeEncodeError] when it
    has not.  Two messages of the tool carry a character outside ASCII,
    the marks of lines 317 and 322, and these are the prints the model
    has; the other messages (lines 242, 280, 302 and 325) are ASCII text
    for ASCII file names. *)
Record Stdout : Type := mkStdout { encodes : string -> bool }.

Definition print (out : Stdout) (s : string) : M unit :=
  fun c => if encodes out s then (Some tt, c) else (None, c).

(** The text of line 317, and the text of line 322 up to the message of
    the exception, which the model does not carry. *)
Definition saved_message (output_file : string) : string :=
  "  ✓ Saved to: " ++ output_file.

Definition error_message : string := "  ✗ Error: ".

(** What the file system answers to one run of [process_directory]:
    whether [mkdir] of the output folder returns ([made]); the entries of
    the input folder the loop receives, in order ([listing]); and whether
    the enumeration ends after them ([exhausted]) or raises, as [iterdir]
    does on a folder that cannot be listed, before the first entry, and
    [is_file] on an entry it may not look at. *)
Record Folder : Type := mkFolder {
  made : bool;
  listing : list DirEntry;
  exhausted : bool
}.

(** The output folder was made and the input folder holds [entries]. *)
Definition listed (entries : list DirEntry) : Folder :=
  mkFolder true entries true.

Section WithLibrary.
Variable lib : Library.

Definition add_text_watermark (image : Image) : M Image :=
  cfg <- config ;;
  let overlay := new "RGBA" (width image) (height image) [0; 0; 0; 0] in
  base_size <- _calculate_size image ;;
  label <- or_raise (text cfg) ;;
  '(text_width, text_height, glyphs) <- or_raise (rasterize lib base_size label) ;;
  '(x, y) <- _calculate_position image text_width text_height ;;
  let '(r, g, b) := resolve_color (text_color cfg) in
  alpha <- or_raise (fill_alpha (opacity cfg)) ;;
  let overlay :=
    draw_text lib overlay x y glyphs [clip8 r; clip8 g; clip8 b; clip8 alpha] in
  let image :=
    if negb (String.eqb (mode image) "RGBA") then convert lib "RGBA" image
    else image in
  ret (alpha_composite image overlay).

(** [a / b] of two ints: the correctly rounded quotient *)
Definition int_truediv (a b : Z) : option float :=
  if b =? 0 then None
  else Some (if 0 <? b then round_q a b else round_q (- a) (- b)).

(** The size the watermark is resized to: lines 206 to 215. *)
Definition new_size (base_size original_width original_height : Z)
  : option (Z * Z) :=
  match int_truediv original_width original_height with
  | None => None
  | Some aspect_ratio =>
      if ltb c1_0 aspect_ratio then
        match fdiv (of_int base_size) aspect_ratio with
        | Some q => Some (base_size, to_int q)
        | None => None
        end
      else Some (to_int (fmul (of_int base_size) aspect_ratio), base_size)
  end.

Definition add_image_watermark (image : Image) : M Image :=
  try_except
    (cfg <- config ;;
     path <- or_raise (image_path cfg) ;;
     opened <- or_raise (open_file lib path) ;;
     let watermark := convert lib "RGBA" opened in
     base_size <- _calculate_size image ;;
     '(new_width, new_height) <-
       or_raise (new_size base_size (width watermark) (height watermark)) ;;
     watermark <- or_raise (resize lib watermark new_width new_height) ;;
     let watermark :=
       if ltb (opacity cfg) c1_0 then enhance_alpha lib (opacity cfg) watermark
       else watermark in
     '(x, y) <- _calculate_position image new_width new_height ;;
     let image' :=
       if negb (String.eqb (mode image) "RGBA") then convert lib "RGBA" image
       else image in
     let watermarked := new "RGBA" (width image') (height image') [0; 0; 0; 0] in
     let watermarked := paste watermarked image' 0 0 in
     let watermarked := paste_masked watermarked watermark x y watermark in
     ret watermarked)
    (ret image).

(** The conversion back to the mode of the file: lines 267 to 275. *)
Definition restore_mode (original_mode : string) (watermarked : Image) : Image :=
  if negb (String.eqb original_mode "RGBA") then
    if String.eqb original_mode "RGB" then
      let background :=
        new "RGB" (width watermarked) (height watermarked) [255; 255; 255] in
      mkImage "RGB" (width background) (height background)
        (fun i j =>
           if inside background i j && inside watermarked i j then
             blend_bands (alpha_of (getpixel watermarked i j))
                         (getpixel background i j)
                         (firstn 3 (getpixel watermarked i j))
           else getpixel background i j)
    else if String.eqb original_mode "L" || String.eqb original_mode "P" then
      convert lib original_mode watermarked
    else watermarked
  else watermarked.

(** [process_image]: the result is Python's return value, [None]
    after an exception. *)
Definition process_image (input_path : string) : M (option Image) :=
  try_except
    (image <- or_raise (open_file lib input_path) ;;
     let original_mode := mode image in
     let image :=
       if negb (String.eqb (mode image) "RGBA") then convert lib "RGBA" image
       else image in
     cfg <- config ;;
     if truthy (text cfg) then
       watermarked <- add_text_watermark image ;;
       ret (Some (restore_mode original_mode watermarked))
     else if truthy (image_path cfg) then
       watermarked <- add_image_watermark image ;;
       ret (Some (restore_mode original_mode watermarked))
     else ret (Some image))
    (ret None).

(** *** The batch driver *)

(** [path / name] *)
Definition joinpath (dir name : string) : string := dir ++ "/" ++ name.

(** the part of [s] from its last dot on *)
Fixpoint from_last_dot (s : string) : option string :=
  match s with
  | EmptyString => None
  | String c s' =>
      match from_last_dot s' with
      | Some t => Some t
      | None => if Ascii.eqb c "." then Some s else None
      end
  end.

(** [Path.suffix]: the dot must be neither the first nor the last
    character of the name *)
Definition suffix (name : string) : string :=
  match name with
  | EmptyString => ""
  | String _ rest =>
      match from_last_dot rest with
      | Some t => if (String.length t =? 1)%nat then "" else t
      | None => ""
      end
  end.

Definition supported_formats : list string :=
  [".jpg"; ".jpeg"; ".png"; ".bmp"; ".tiff"; ".tif"; ".gif"; ".webp"].

Definition supported (e : DirEntry) : bool :=
  is_file e
  && existsb (String.eqb (lower (suffix (name e)))) supported_formats.

(** The body of the loop of [process_directory]: lines 300 to 323.  The
    two counters are local variables, so the handler of line 321 finds
    them as they were when the exception was raised: it is given the
    report reached by then.  The handler prints before it counts, and its
    own [print] is not guarded. *)
Definition process_entry (out : Stdout) (r : Report) (input_file : DirEntry)
  : M Report :=
  if supported input_file then
    let handler (reached : Report) : M Report :=
      _ <- print out error_message ;;
      ret (mkReport (saved reached) (processed_count reached)
                    (error_count reached + 1)) in
    counted <-
      try_except
        (cfg <- config ;;
         watermarked <- process_image (joinpath (input_folder cfg) (name input_file)) ;;
         match watermarked with
         | Some watermarked =>
             cfg <- config ;;
             let output_file :=
               if negb (String.eqb (prefix cfg) "")
               then joinpath (output_folder cfg)
                             (prefix cfg ++ "_" ++ name input_file)
               else joinpath (output_folder cfg) (name input_file) in
             if save lib output_file watermarked then
               ret (inl (output_file,
                         mkReport (saved r ++ [(output_file, watermarked)])
                                  (processed_count r + 1) (error_count r)))
             else raise
         | None =>
             ret (inr (mkReport (saved r) (processed_count r) (error_count r + 1)))
         end)
        (r' <- handler r ;; ret (inr r')) ;;
    match counted with
    | inl (output_file, r') =>
        try_except (_ <- print out (saved_message output_file) ;; ret r')
                   (handler r')
    | inr r' => ret r'
    end
  else ret r.

Fixpoint process_entries (out : Stdout) (r : Report) (entries : list DirEntry)
  : M Report :=
  match entries with
  | [] => ret r
  | input_file :: rest =>
      r' <- process_entry out r input_file ;;
      process_entries out r' rest
  end.

(** [process_directory]: [mkdir] of line 289, the loop over what
    [iterdir] yields, and the end of the enumeration. *)
Definition process_directory (out : Stdout) (dir : Folder) : M Report :=
  if made dir then
    r <- process_entries out (mkReport [] 0 0) (listing dir) ;;
    if exhausted dir then ret r else raise
  else raise.

End WithLibrary.

(** *** The specification's formulas, to compare the code with *)

(** Section 4.2, Size: [floor(min(image_width, image_height) * factor)]
    with the factor as a fraction of 100. *)
Definition spec_percent (size_name : string) : Z :=
  if String.eqb size_name "small" then 5
  else if String.eqb size_name "medium" then 10
  else if String.eqb size_name "large" then 15
  else 30.

Definition spec_size (cfg : Config) (image : Image) : Z :=
  match pixel_size cfg with
  | Some p =>
      if 0 <? p then p
      else Z.min (width image) (height image) * spec_percent (size cfg) / 100
  | None => Z.min (width image) (height image) * spec_percent (size cfg) / 100
  end.

(** [round(p / q)] of the specification: the nearest integer ([0 < q]);
    a tie goes to the even neighbour, as Python's [round] does. *)
Definition spec_round (p q : Z) : Z := rne p q.

(** Section 4.2, Position: the axis factors of the nine anchors, an
    unrecognized name falling back to bottom-right. *)
Inductive Factor : Set := Zero | Half | One.

Definition spec_anchor (anchor : string) : Factor * Factor :=
  if String.eqb anchor "top-left" then (Zero, Zero)
  else if String.eqb anchor "top-center" then (Half, Zero)
  else if String.eqb anchor "top-right" then (One, Zero)
  else if String.eqb anchor "center-left" then (Zero, Half)
  else if String.eqb anchor "center" then (Half, Half)
  else if String.eqb anchor "center-right" then (One, Half)
  else if String.eqb anchor "bottom-left" then (Zero, One)
  else if String.eqb anchor "bottom-center" then (Half, One)
  else (One, One).

(** "factor 0 → position = margin; factor 1 → position = dimension −
    watermark_dimension − margin; factor 0.5 → leave the base position
    unmodified", the base position being
    [round((dimension - watermark_dimension) * factor)]. *)
Definition spec_axis (f : Factor) (margin dimension watermark_dimension : Z) : Z :=
  match f with
  | Zero => margin
  | One => dimension - watermark_dimension - margin
  | Half => spec_round (dimension - watermark_dimension) 2
  end.

(** "margin = round(min(image_width, image_height) * 0.05)" *)
Definition spec_margin (image : Image) : Z :=
  spec_round (Z.min (width image) (height image) * 5) 100.

Definition spec_position (anchor : string) (image : Image)
           (watermark_width watermark_height : Z) : Z * Z :=
  let '(fx, fy) := spec_anchor anchor in
  (spec_axis fx (spec_margin image) (width image) watermark_width,
   spec_axis fy (spec_margin image) (height image) watermark_height).

(** The same with [int()] in the place of [round]: truncation toward
    zero. *)
Definition trunc_margin (image : Image) : Z :=
  Z.min (width image) (height image) * 5 / 100.

Definition trunc_axis (f : Factor) (margin dimension watermark_dimension : Z) : Z :=
  match f with
  | Zero => margin
  | One => dimension - watermark_dimension - margin
  | Half => Z.quot (dimension - watermark_dimension) 2
  end.

Definition trunc_position (anchor : string) (image : Image)
           (watermark_width watermark_height : Z) : Z * Z :=
  let '(fx, fy) := spec_anchor anchor in
  (trunc_axis fx (trunc_margin image) (width image) watermark_width,
   trunc_axis fy (trunc_margin image) (height image) watermark_height).

(** "the entire watermark bounding box inside the image bounds" *)
Definition box_inside (image : Image) (xy : Z * Z)
           (watermark_width watermark_height : Z) : Prop :=
  0 <= fst xy /\ fst xy + watermark_width <= width image /\
  0 <= snd xy /\ snd xy + watermark_height <= height image.

(** Section 4.4, step 2: "longer side maps to the computed size; shorter
    side scales proportionally, rounded to nearest integer ≥1". *)
Definition spec_new_size (s w h : Z) : Z * Z :=
  if h <? w then (s, Z.max 1 (spec_round (s * h) w))
  else (Z.max 1 (spec_round (s * w) h), s).

(** Two images with the same mode, size and pixels. *)
Definition same_pixels (a b : Image) : Prop :=
  mode a = mode b /\ width a = width b /\ height a = height b /\
  forall i j, inside b i j = true -> getpixel a i j = getpixel b i j.

(** Every band of every pixel of the image is an 8-bit value. *)
Definition eight_bit (im : Image) : Prop :=
  forall i j, inside im i j = true ->
              Forall (fun v => 0 <= v <= 255) (getpixel im i j).

(** The working copy [process_image] makes of a decoded file. *)
Definition working_copy (lib : Library) (image : Image) : Image :=
  if negb (String.eqb (mode image) "RGBA") then convert lib "RGBA" image
  else image.


(** The configuration an operation may leave behind: the one it found,
    or that one with an unrecognized position replaced by
    ["bottom-right"]. *)
Definition position_defaulted (c c' : Config) : Prop :=
  c' = c \/
  (dict_mem POSITIONS (position c) = false /\ c' = set_position c "bottom-right").

(** A colour string the code reads as a hex code: it starts with [#] and
    has length 4 or 7. *)
Definition hex_shaped (t : string) : bool :=
  String.prefix "#" t && ((len t =? 4) || (len t =? 7)).

(** A method leaves the configuration as [position_defaulted] allows. *)
Definition keeps_config {A : Type} (m : M A) : Prop :=
  forall c, position_defaulted c (snd (m c)).

(** An RGB image whose pixels are three 8-bit bands. *)
Definition rgb_bytes (im : Image) : Prop :=
  forall i j, inside im i j = true ->
              exists r g b, getpixel im i j = [r; g; b] /\
                            0 <= r <= 255 /\ 0 <= g <= 255 /\ 0 <= b <= 255.

(** The library with other files behind [Image.open]. *)
Definition set_open_file (lib : Library) (f : string -> option Image) : Library :=
  mkLibrary f (convert_other lib) (rasterize lib) (draw_band lib)
            (resample lib) (scale_alpha lib) (save lib).

(** The files of a report were written: [save] accepted each of them. *)
Definition written (lib : Library) (r : Report) : Prop :=
  Forall (fun f => save lib (fst f) (snd f) = true) (saved r).

(** The configuration with a relative size name and no pixel size. *)
Definition with_relative_size (c : Config) (s : string) : Config :=
  mkConfig (input_folder c) (output_folder c) (text c) (image_path c) (position c)
           (opacity c) s None (text_color c) (prefix c).

(** An opacity between 0.0 and 1.0. *)
Definition in_unit (o : float) : Prop :=
  0 <= mant o /\
  (if 0 <=? expo o then mant o * 2 ^ expo o <= 1 else mant o <= 2 ^ (- expo o)).

(** All the characters, and the check that two hex digits, lowercased as
    the resolver does, parse to the number they spell. *)
Definition all_ascii : list ascii := map ascii_of_nat (seq 0 256).

Definition two_digits_ok (c1 c2 : ascii) : bool :=
  match Int16.digit c1, Int16.digit c2 with
  | Some v1, Some v2 =>
      match Int16.parse (String (lower_ascii c1) (String (lower_ascii c2) "")) with
      | Some v => v =? 16 * v1 + v2
      | None => false
      end
  | _, _ => true
  end.

End Watermarker.

(* ================================================================== *)
(** ** Sample inputs *)
(* ================================================================== *)

Module Samples.
Import Float64 Py PIL Watermarker.
Local Open Scope string_scope.
Local Open Scope Z_scope.

(** the defaults of the command line: text ["@ghostmark"], bottom-right,
    opacity 0.8, size small, text colour black *)
Definition defaults : Config :=
  mkConfig "input" "output" (Some "@ghostmark") None "bottom-right"
           (mk 3602879701896397 (-52)) "small" (Some 0) "#000000" "".

Definition with_position (c : Config) (p : string) : Config := set_position c p.

Definition with_text (c : Config) (t : option string) : Config :=
  mkConfig (input_folder c) (output_folder c) t (image_path c) (position c)
           (opacity c) (size c) (pixel_size c) (text_color c) (prefix c).

Definition with_opacity (c : Config) (o : float) : Config :=
  mkConfig (input_folder c) (output_folder c) (text c) (image_path c) (position c)
           o (size c) (pixel_size c) (text_color c) (prefix c).

(** a [w] by [h] image of one colour *)
Definition plain (m : string) (w h : Z) (p : Pixel) : Image := new m w h p.

(** A library with one photo and no watermark file: text takes 40 by 12
    pixels and covers its box fully, resizing keeps the top-left pixel,
    every file can be written. *)
Definition photos : Library :=
  mkLibrary
    (fun path => if String.eqb path "input/photo.jpg"
                 then Some (plain "RGB" 100 80 [10; 20; 30]) else None)
    (fun _ im i j => getpixel im i j)
    (fun _ _ => Some (40, 12, fun i j =>
                        if (0 <=? i) && (i <? 40) && (0 <=? j) && (j <? 12)
                        then 255 else 0))
    (fun c _ o v => blend8 c o v)
    (fun im w h => if (w <? 1) || (h <? 1) then None
                   else Some (fun _ _ => getpixel im 0 0))
    (fun f a => to_int (fmul (of_int a) f))
    (fun _ _ => true).

(** the glyph coverage of [photos]: a full block of 40 by 12 pixels *)
Definition block (i j : Z) : Z :=
  if (0 <=? i) && (i <? 40) && (0 <=? j) && (j <? 12) then 255 else 0.


(** A library with an RGBA photo, a CMYK scan and a 2 by 1 logo that is
    fully opaque. *)
Definition branded : Library :=
  mkLibrary
    (fun path =>
       if String.eqb path "input/photo.png"
       then Some (plain "RGBA" 100 80 [10; 20; 30; 255])
       else if String.eqb path "input/scan.tif"
       then Some (plain "CMYK" 60 40 [0; 0; 0; 0])
       else if String.eqb path "logo.png"
       then Some (plain "RGBA" 2 1 [200; 100; 50; 255])
       else None)
    (fun _ _ _ _ => [0; 0; 0; 255])
    (rasterize photos) (draw_band photos) (resample photos)
    (scale_alpha photos) (save photos).

(** A console in UTF-8, which encodes every text, and one in ASCII. *)
Definition utf8 : Stdout := mkStdout (fun _ => true).

Definition ascii_only : Stdout :=
  mkStdout (fun s => forallb (fun c => (N_of_ascii c <? 128)%N)
                             (list_ascii_of_string s)).

(** an image watermark at full opacity *)
Definition logo_config : Config :=
  mkConfig "input" "output" None (Some "logo.png") "bottom-right"
           (mk 1 0) "small" (Some 0) "#000000" "".

End Samples.

(* ================================================================== *)
(** ** [main]: from the command line to the run *)
(* ================================================================== *)

Module Main.
Import Float64 Py PIL Watermarker.
Local Open Scope string_scope.
Local Open Scope Z_scope.

(** The "user configurable options" at the head of [watermark.py]. *)
Record Options : Type := mkOptions {
  INPUT_FOLDER : string;
  OUTPUT_FOLDER : string;
  DEFAULT_TEXT : string;
  DEFAULT_IMAGE : string;
  DEFAULT_POSITION : string;
  DEFAULT_OPACITY : float;
  DEFAULT_SIZE : string;
  DEFAULT_PIXEL_SIZE : Z;
  DEFAULT_TEXT_COLOR : string;
  DEFAULT_PREFIX : string
}.

(** The values the file ships with. *)
Definition shipped : Options :=
  mkOptions "input" "output" "@ghostmark" "" "bottom-right"
            (mk 3602879701896397 (-52)) "small" 0 "#000000" "".

(** The options given on the command line, already converted by their
    [type=]; [None] is an option that was not given. *)
Record CommandLine : Type := mkCommandLine {
  arg_input : option string;
  arg_output : option string;
  arg_text : option string;
  arg_image : option string;
  arg_position : option string;
  arg_opacity : option float;
  arg_size : option string;
  arg_pixel_size : option Z;
  arg_text_color : option string;
  arg_prefix : option string
}.

Definition position_choices : list string :=
  ["top-left"; "top-center"; "top-right";
   "center-left"; "center"; "center-right";
   "bottom-left"; "bottom-center"; "bottom-right"].

Definition size_choices : list string := ["small"; "medium"; "large"].

Definition chosen (choices : list string) (given : option string) : bool :=
  match given with
  | None => true
  | Some v => existsb (String.eqb v) choices
  end.

(** [argparse] checks the values given for [--position] and [--size]
    against their [choices]; a default is not checked. *)
Definition choices_ok (cl : CommandLine) : bool :=
  chosen position_choices (arg_position cl) && chosen size_choices (arg_size cl).

Definition given_or {A : Type} (given : option A) (default : A) : A :=
  match given with
  | Some v => v
  | None => default
  end.

(** A string as a condition: the empty string is false. *)
Definition nonempty (s : string) : bool := negb (String.eqb s "").

(** [args = parser.parse_args()], for a command line the parser accepts:
    lines 330 to 370. *)
Definition parse_args (o : Options) (cl : CommandLine) : Config :=
  mkConfig
    (given_or (arg_input cl) (INPUT_FOLDER o))
    (given_or (arg_output cl) (OUTPUT_FOLDER o))
    (match arg_text cl with
     | Some t => Some t
     | None => if negb (nonempty (DEFAULT_IMAGE o)) then Some (DEFAULT_TEXT o)
               else None
     end)
    (match arg_image cl with
     | Some p => Some p
     | None => if nonempty (DEFAULT_IMAGE o) then Some (DEFAULT_IMAGE o) else None
     end)
    (given_or (arg_position cl) (DEFAULT_POSITION o))
    (given_or (arg_opacity cl) (DEFAULT_OPACITY o))
    (given_or (arg_size cl) (DEFAULT_SIZE o))
    (Some (given_or (arg_pixel_size cl) (DEFAULT_PIXEL_SIZE o)))
    (given_or (arg_text_color cl) (DEFAULT_TEXT_COLOR o))
    (given_or (arg_prefix cl) (DEFAULT_PREFIX o)).

(** "If no watermark specified, use defaults": lines 372 to 377. *)
Definition use_defaults (o : Options) (args : Config) : Config :=
  match text args, image_path args with
  | None, None =>
      if nonempty (DEFAULT_IMAGE o)
      then set_image_path args (Some (DEFAULT_IMAGE o))
      else mkConfig (input_folder args) (output_folder args)
                    (Some (DEFAULT_TEXT o)) (image_path args) (position args)
                    (opacity args) (size args) (pixel_size args)
                    (text_color args) (prefix args)
  | _, _ => args
  end.

(** The configuration [main] hands to [Watermarker]. *)
Definition main_config (o : Options) (cl : CommandLine) : Config :=
  use_defaults o (parse_args o cl).

(** [main], after the parser has accepted the command line.  [isdir] tells
    whether the input folder exists, [dir] is what the file system answers
    to the run.  [None] is the early return of line 382. *)
Definition main (lib : Library) (out : Stdout) (o : Options) (cl : CommandLine)
           (isdir : string -> bool) (dir : Folder)
  : option (option Report * Config) :=
  let args := main_config o cl in
  if negb (isdir (input_folder args)) then None
  else Some (process_directory lib out dir args).

(** The command line without its [--image]. *)
Definition without_image (cl : CommandLine) : CommandLine :=
  mkCommandLine (arg_input cl) (arg_output cl) (arg_text cl) None
                (arg_position cl) (arg_opacity cl) (arg_size cl)
                (arg_pixel_size cl) (arg_text_color cl) (arg_prefix cl).

(** no option given, and [--image logo.png] alone *)
Definition no_options : CommandLine :=
  mkCommandLine None None None None None None None None None None.

Definition image_only : CommandLine :=
  mkCommandLine None None None (Some "logo.png") None None None None None None.

End Main.

(* ================================================================== *)
(** ** Facts about the rounding *)
(* ================================================================== *)

Module Float64Facts.
Import Float64.

Lemma rne_cases p q :
  0 < q -> rne p q = p / q \/ rne p q = p / q + 1.
Proof.
  intros Hq. unfold rne.
  destruct (2 * (p mod q) <? q); [now left|].
  destruct (q <? 2 * (p mod q)); [now right|].
  destruct (p / q mod 2 =? 0); [now left|now right].
Qed.

Lemma rne_ge_int p q N : 0 < q -> N * q <= p -> N <= rne p q.
Proof.
  intros Hq H.
  assert (N <= p / q) by (apply Z.div_le_lower_bound; lia).
  destruct (rne_cases p q Hq) as [-> | ->]; lia.
Qed.

Lemma rne_le_int p q N : 0 < q -> p <= N * q -> rne p q <= N.
Proof.
  intros Hq H. unfold rne.
  pose proof (Z.div_mod p q ltac:(lia)) as Hd.
  pose proof (Z.mod_pos_bound p q Hq) as Hm.
  assert (Hk : p / q <= N) by (apply Z.div_le_upper_bound; lia).
  destruct (Z.ltb_spec (2 * (p mod q)) q); [exact Hk|].
  assert (p / q < N); [|destruct (q <? 2 * (p mod q)), (p / q mod 2 =? 0); lia].
  destruct (Z.eq_dec (p / q) N) as [E|]; [|lia].
  rewrite E in Hd. nia.
Qed.

Lemma rne_exact k q : 0 < q -> rne (k * q) q = k.
Proof.
  intros Hq. unfold rne.
  rewrite Z.div_mul, Z.mod_mul by lia.
  destruct (Z.ltb_spec (2 * 0) q); [reflexivity|lia].
Qed.

Lemma rne_bounds p q :
  0 < q -> 2 * p - q <= 2 * (q * rne p q) <= 2 * p + q.
Proof.
  intros Hq. unfold rne.
  pose proof (Z.div_mod p q ltac:(lia)) as Hd.
  pose proof (Z.mod_pos_bound p q Hq) as Hm.
  destruct (Z.ltb_spec (2 * (p mod q)) q); [nia|].
  destruct (Z.ltb_spec q (2 * (p mod q))); [nia|].
  destruct (p / q mod 2 =? 0); nia.
Qed.

Lemma pow2_pos k : 0 < 2 ^ k \/ (k < 0 /\ 2 ^ k = 0).
Proof.
  destruct (Z.le_gt_cases 0 k).
  - left. apply Z.pow_pos_nonneg; lia.
  - right. split; [lia|]. apply Z.pow_neg_r; lia.
Qed.

Lemma pow2_gt0 k : 0 <= k -> 0 < 2 ^ k.
Proof. intros. apply Z.pow_pos_nonneg; lia. Qed.

Lemma pow2_succ k : 0 <= k -> 2 ^ (k + 1) = 2 * 2 ^ k.
Proof. intros. rewrite Z.pow_add_r by lia. lia. Qed.

Lemma pow2_add a b : 0 <= a -> 0 <= b -> 2 ^ (a + b) = 2 ^ a * 2 ^ b.
Proof. intros. apply Z.pow_add_r; lia. Qed.

Lemma log2_bounds x : 0 < x -> 2 ^ Z.log2 x <= x < 2 * 2 ^ Z.log2 x.
Proof.
  intros H. pose proof (Z.log2_spec x H) as Hs.
  rewrite <- Z.add_1_r, pow2_succ in Hs by apply Z.log2_nonneg. exact Hs.
Qed.

Lemma binade_spec p q : 0 < p -> 0 < q -> in_binade (binade p q) p q.
Proof.
  intros Hp Hq. unfold in_binade, binade.
  pose proof (log2_bounds p Hp) as Bp. pose proof (log2_bounds q Hq) as Bq.
  pose proof (Z.log2_nonneg p). pose proof (Z.log2_nonneg q).
  set (lp := Z.log2 p) in *. set (lq := Z.log2 q) in *.
  set (P := 2 ^ lp) in *. set (Q := 2 ^ lq) in *.
  unfold scale2 at 2.
  destruct (Z.leb_spec 0 (lp - lq)) as [Hd|Hd]; cbv beta iota zeta.
  - (* lp >= lq *)
    assert (HP : P = Q * 2 ^ (lp - lq)).
    { unfold P, Q. rewrite <- Z.pow_add_r by lia. f_equal; try lia. }
    pose proof (pow2_gt0 (lp - lq) Hd) as HD.
    set (D := 2 ^ (lp - lq)) in *.
    assert (Q * D <= q * D) by (apply Z.mul_le_mono_nonneg_r; lia).
    assert (q * D < 2 * Q * D) by (apply Z.mul_lt_mono_pos_r; lia).
    destruct (Z.leb_spec (q * D) p) as [Hc|Hc]; unfold scale2.
    + destruct (Z.leb_spec 0 (lp - lq)); [|lia]. fold D. lia.
    + destruct (Z.leb_spec 0 (lp - lq - 1)) as [Hd1|Hd1].
      * assert (HD2 : D = 2 * 2 ^ (lp - lq - 1)).
        { unfold D. rewrite <- pow2_succ by lia. f_equal; try lia. }
        pose proof (pow2_gt0 (lp - lq - 1) Hd1).
        rewrite HD2 in *. set (D' := 2 ^ (lp - lq - 1)) in *. nia.
      * assert (lp - lq = 0) as E by lia. 
        replace (- (lp - lq - 1)) with 1 by lia.
        unfold D in *. rewrite E in *. change (2 ^ 0) with 1 in *. change (2 ^ 1) with 2. lia.
  - assert (HP : Q = P * 2 ^ (- (lp - lq))).
    { unfold P, Q. rewrite <- Z.pow_add_r by lia. f_equal; try lia. }
    assert (HD : 0 < 2 ^ (- (lp - lq))) by (apply pow2_gt0; lia).
    set (D := 2 ^ (- (lp - lq))) in *.
    assert (P * D <= p * D) by (apply Z.mul_le_mono_nonneg_r; lia).
    assert (p * D < 2 * P * D) by (apply Z.mul_lt_mono_pos_r; lia).
    destruct (Z.leb_spec q (p * D)) as [Hc|Hc]; unfold scale2.
    + destruct (Z.leb_spec 0 (lp - lq)); [lia|]. fold D. lia.
    + destruct (Z.leb_spec 0 (lp - lq - 1)); [lia|].
      replace (- (lp - lq - 1)) with (- (lp - lq) + 1) by lia.
      rewrite pow2_succ by lia. fold D. lia.
Qed.

Lemma pow2_le_mono a b : 0 <= a <= b -> 2 ^ a <= 2 ^ b.
Proof. intros. apply Z.pow_le_mono_r; lia. Qed.

Lemma round_pos_small p q :
  0 < p -> 0 < q -> p < q * 2 ^ 52 -> q <= p * 2 ^ 1022 ->
  exists k, 0 < k <= 1074 /\
            round_pos p q = mk (rne (p * 2 ^ k) q) (- k) /\
            2 ^ 52 * q <= p * 2 ^ k < 2 ^ 53 * q.
Proof.
  intros Hp Hq Hhi Hlo.
  pose proof (binade_spec p q Hp Hq) as Hb. unfold in_binade in Hb.
  unfold round_pos. set (b := binade p q) in *. clearbody b.
  unfold scale2 in Hb.
  assert (Hb52 : b < 52).
  { destruct (Z.leb_spec 0 b); [|lia].
    destruct (Z.lt_ge_cases b 52) as [|Hge]; [assumption|exfalso].
    pose proof (pow2_le_mono 52 b ltac:(lia)). nia. }
  assert (Hb1022 : -1022 <= b).
  { destruct (Z.leb_spec 0 b); [lia|].
    destruct (Z.le_gt_cases (-1022) b) as [|Hlt]; [assumption|exfalso].
    pose proof (pow2_le_mono 1023 (- b) ltac:(lia)).
    change (2 ^ 1023) with (2 * 2 ^ 1022) in *.
    set (A := 2 ^ 1022) in *. set (B := 2 ^ (- b)) in *.
    assert (p * (2 * A) <= p * B) by (apply Z.mul_le_mono_nonneg_l; lia). lia. }
  exists (52 - b). unfold prec, emin.
  replace (Z.max (b - (53 - 1)) (-1074)) with (- (52 - b)) by lia.
  unfold scale2. destruct (Z.leb_spec 0 (- (52 - b))); [lia|].
  rewrite Z.opp_involutive.
  split; [lia|]. split; [reflexivity|].
  destruct (Z.leb_spec 0 b).
  - assert (E : 2 ^ 52 = 2 ^ b * 2 ^ (52 - b)).
    { rewrite <- Z.pow_add_r by lia. f_equal; try lia. }
    change (2 ^ 53) with (2 * 2 ^ 52). rewrite E.
    pose proof (pow2_gt0 (52 - b) ltac:(lia)). pose proof (pow2_gt0 b ltac:(lia)).
    set (T := 2 ^ (52 - b)) in *. set (B := 2 ^ b) in *.
    assert (q * B * T <= p * T) by (apply Z.mul_le_mono_nonneg_r; lia).
    assert (p * T < 2 * (q * B) * T) by (apply Z.mul_lt_mono_pos_r; lia).
    lia.
  - assert (E : 2 ^ (52 - b) = 2 ^ 52 * 2 ^ (- b)).
    { rewrite <- Z.pow_add_r by lia. f_equal; try lia. }
    change (2 ^ 53) with (2 * 2 ^ 52). rewrite E.
    set (A := 2 ^ 52) in *. assert (0 < A) by (unfold A; lia).
    set (B := 2 ^ (- b)) in *.
    assert (A * q <= A * (p * B)) by (apply Z.mul_le_mono_nonneg_l; lia).
    assert (A * (p * B) < A * (2 * q)) by (apply Z.mul_lt_mono_pos_l; lia).
    lia.
Qed.

Lemma round_q_pos p q : 0 < p -> round_q p q = round_pos p q.
Proof. destruct p; simpl; intros; try lia; reflexivity. Qed.

Lemma of_int_small n : Z.abs n < 2 ^ 53 -> of_int n = mk n 0.
Proof. intros H. unfold of_int, prec. apply Z.ltb_lt in H. rewrite H. reflexivity. Qed.

Lemma fmul_int_const n M e :
  e < 0 -> fmul (mk n 0) (mk M e) = round_q (n * M) (2 ^ (- e)).
Proof.
  intros He. unfold fmul, scale2. cbn [mant expo].
  replace (- (0 + e)) with (- e) by lia.
  destruct (Z.leb_spec 0 (- e)); [|lia]. rewrite Z.mul_1_l. reflexivity.
Qed.

Lemma to_int_neg_expo m k : 0 <= m -> 0 < k -> to_int (mk m (- k)) = m / 2 ^ k.
Proof.
  intros Hm Hk. unfold to_int. cbn [mant expo].
  destruct (Z.leb_spec 0 (- k)); [lia|].
  rewrite Z.opp_involutive. apply Z.quot_div_nonneg; [lia|apply pow2_gt0; lia].
Qed.

Lemma div_unique_floor m T K : 0 < T -> K * T <= m < (K + 1) * T -> m / T = K.
Proof. intros HT H. symmetry. apply (Z.div_unique m T K (m - K * T)); lia. Qed.

Lemma pow2_lt_inv a b : 0 <= b -> 2 ^ a < 2 ^ b -> a < b.
Proof. intros Hb H. apply (Z.pow_lt_mono_r_iff 2); lia. Qed.

Ltac mul_const_floor n M e E a :=
  let Hn := fresh "Hn" in
  intros Hn;
  rewrite of_int_small by lia;
  rewrite (fmul_int_const n M e) by lia; change (- e) with E;
  destruct (Z.eq_dec n 0) as [-> | Hn0]; [reflexivity|];
  rewrite round_q_pos by lia;
  let k := fresh "k" in let Hk := fresh "Hk" in let Hb := fresh "Hb" in
  destruct (round_pos_small (n * M) (2 ^ E)) as (k & Hk & -> & Hb); try lia;
  pose proof (pow2_gt0 k ltac:(lia));
  assert (0 <= rne (n * M * 2 ^ k) (2 ^ E)) by (apply rne_ge_int; nia);
  rewrite to_int_neg_expo by lia;
  pose proof (rne_bounds (n * M * 2 ^ k) (2 ^ E) ltac:(lia));
  pose proof (Z.div_mod (n * a) 100 ltac:(lia));
  pose proof (Z.mod_pos_bound (n * a) 100 ltac:(lia));
  apply div_unique_floor; [lia|];
  generalize dependent (rne (n * M * 2 ^ k) (2 ^ E));
  generalize dependent (n * a / 100); generalize dependent ((n * a) mod 100);
  generalize dependent (2 ^ k);
  let T := fresh "T" in let r := fresh "r" in let K := fresh "K" in let m := fresh "m" in
  intros T ? ? r ? K ? m ? ?;
  assert (n * T * a = 100 * (K * T) + r * T) by nia;
  assert (0 <= r * T <= 99 * T) by nia;
  assert (T <= n * T <= (2 ^ 31 - 1) * T) by nia;
  replace (n * M * T) with (M * (n * T)) in * by ring;
  replace ((K + 1) * T) with (K * T + T) by ring;
  generalize dependent (n * T); generalize dependent (K * T); generalize dependent (r * T);
  intros;
  change (2 ^ E) with ltac:(let v := eval vm_compute in (2 ^ E) in exact v) in *;
  change (2 ^ 52) with 4503599627370496 in *;
  change (2 ^ 53) with 9007199254740992 in *;
  change (2 ^ 31) with 2147483648 in *;
  lia.

Lemma mul_0_05 n : 0 <= n < 2 ^ 31 -> to_int (fmul (of_int n) c0_05) = n * 5 / 100.
Proof. unfold c0_05. mul_const_floor n 7205759403792794 (-57) 57 5. Qed.

Lemma mul_0_1 n : 0 <= n < 2 ^ 31 -> to_int (fmul (of_int n) c0_1) = n * 10 / 100.
Proof. unfold c0_1. mul_const_floor n 7205759403792794 (-56) 56 10. Qed.

Lemma mul_0_15 n : 0 <= n < 2 ^ 31 -> to_int (fmul (of_int n) c0_15) = n * 15 / 100.
Proof. unfold c0_15. mul_const_floor n 5404319552844595 (-55) 55 15. Qed.

Lemma mul_0_3 n : 0 <= n < 2 ^ 31 -> to_int (fmul (of_int n) c0_3) = n * 30 / 100.
Proof. unfold c0_3. mul_const_floor n 5404319552844595 (-54) 54 30. Qed.

(** [d * 0.5] is exact, and [int()] truncates it toward zero. *)
Lemma round_pos_half d : 0 < d < 2 ^ 53 -> to_int (round_pos d 2) = d / 2.
Proof.
  intros Hd.
  destruct (round_pos_small d 2) as (k & Hk & -> & Hb); try lia.
  assert (E : 2 ^ k = 2 ^ (k - 1) * 2).
  { rewrite Z.mul_comm, <- pow2_succ by lia. f_equal; lia. }
  pose proof (pow2_gt0 (k - 1) ltac:(lia)) as HT.
  replace (d * 2 ^ k) with (d * 2 ^ (k - 1) * 2) by (rewrite E; ring).
  rewrite rne_exact by lia.
  rewrite to_int_neg_expo by nia.
  rewrite E, (Z.mul_comm d). apply Z.div_mul_cancel_l; lia.
Qed.

Lemma mul_0_5 d : Z.abs d < 2 ^ 53 -> to_int (fmul (of_int d) c0_5) = Z.quot d 2.
Proof.
  intros Hd. rewrite of_int_small by lia. unfold c0_5.
  rewrite (fmul_int_const d 1 (-1)) by lia. change (2 ^ (- -1)) with 2.
  rewrite Z.mul_1_r.
  destruct d as [|p|p]; [reflexivity| |].
  - cbn [round_q]. rewrite round_pos_half by lia.
    symmetry. apply Z.quot_div_nonneg; lia.
  - cbn [round_q]. change (- Z.neg p) with (Z.pos p).
    pose proof (round_pos_half (Z.pos p) ltac:(lia)) as H.
    destruct (round_pos_small (Z.pos p) 2) as (k & Hk & E & Hb); try lia.
    rewrite E in *. unfold fneg, to_int in *. cbn [mant expo] in *.
    destruct (Z.leb_spec 0 (- k)); [lia|].
    rewrite Z.quot_opp_l by (pose proof (pow2_gt0 (- - k) ltac:(lia)); lia).
    rewrite H. change (Z.neg p) with (- Z.pos p).
    rewrite Z.quot_opp_l by lia.
    f_equal. symmetry. apply Z.quot_div_nonneg; lia.
Qed.

End Float64Facts.

(* ================================================================== *)
(** ** The geometry calculator *)
(* ================================================================== *)

Import Float64 Float64Facts Py PIL Watermarker Samples.
Local Open Scope string_scope.
Local Open Scope Z_scope.

Lemma size_factor_percent s n :
  0 <= n < 2 ^ 31 ->
  to_int (fmul (of_int n) (dict_get SIZE_FACTORS s c0_3)) = n * spec_percent s / 100.
Proof.
  intros Hn. unfold SIZE_FACTORS, spec_percent. cbn [dict_get].
  rewrite !(String.eqb_sym _ s).
  destruct (String.eqb s "small"); [apply mul_0_05; exact Hn|].
  destruct (String.eqb s "medium"); [apply mul_0_1; exact Hn|].
  destruct (String.eqb s "large"); [apply mul_0_15; exact Hn|].
  apply mul_0_3; exact Hn.
Qed.

(** C5.  For every image (Pillow's sizes are below 2^31), [_calculate_size]
    returns the configured pixel size when that is above 0; otherwise it
    returns [floor(min(width, height) * factor)], the factor being 0.05 for
    "small", 0.10 for "medium", 0.15 for "large" and 0.3 for any other size
    name.  It never raises and leaves the configuration alone. *)
Theorem calculate_size_spec (cfg : Config) (image : Image) :
  0 <= width image < 2 ^ 31 -> 0 <= height image < 2 ^ 31 ->
  _calculate_size image cfg = (Some (spec_size cfg image), cfg).
Proof.
  intros Hw Hh. unfold _calculate_size, spec_size, bind, config, or_raise, ret.
  destruct (pixel_size cfg) as [p|].
  - destruct (0 <? p); [reflexivity|].
    rewrite size_factor_percent by lia. reflexivity.
  - rewrite size_factor_percent by lia. reflexivity.
Qed.

Lemma calculate_size_spec_witness :
  _calculate_size (plain "RGB" 1000 800 [0; 0; 0]) defaults = (Some 40, defaults).
Proof.
  apply (calculate_size_spec defaults (plain "RGB" 1000 800 [0; 0; 0]));
    cbn; lia.
Defined.

Lemma positions_mem p :
  dict_mem POSITIONS p = true ->
  In p ["top-left"; "top-center"; "top-right"; "center-left"; "center";
        "center-right"; "bottom-left"; "bottom-center"; "bottom-right"].
Proof.
  unfold POSITIONS. cbn [dict_mem]. intros H.
  repeat (apply orb_true_iff in H; destruct H as [H|H];
          [apply String.eqb_eq in H; subst p; cbn; tauto|]).
  discriminate.
Qed.

Lemma spec_anchor_unknown p :
  dict_mem POSITIONS p = false -> spec_anchor p = (One, One).
Proof.
  unfold POSITIONS, spec_anchor. cbn [dict_mem]. intros H.
  repeat (apply orb_false_iff in H;
          let H0 := fresh in
          destruct H as [H0 H]; rewrite String.eqb_sym in H0; rewrite H0).
  reflexivity.
Qed.

Section Position.
Variables (cfg : Config) (image : Image) (w h : Z).
Hypothesis HW : 0 <= width image < 2 ^ 31.
Hypothesis HH : 0 <= height image < 2 ^ 31.
Hypothesis Hw : Z.abs (width image - w) < 2 ^ 53.
Hypothesis Hh : Z.abs (height image - h) < 2 ^ 53.

Lemma calculate_position_known :
  dict_mem POSITIONS (position cfg) = true ->
  _calculate_position image w h cfg
  = (Some (trunc_position (position cfg) image w h), cfg).
Proof.
  intros Hmem.
  unfold _calculate_position, bind, config, or_raise, ret, assign_position.
  rewrite Hmem. cbn [negb].
  rewrite mul_0_05 by lia.
  unfold trunc_position, trunc_margin.
  apply positions_mem in Hmem. cbn [In] in Hmem.
  repeat (destruct Hmem as [<- | Hmem]);
    try (cbn [POSITIONS dict_item String.eqb Ascii.eqb Bool.eqb spec_anchor];
         cbn [eq_int int_mul Py.int orb andb c0_5 mant expo Z.leb Z.eqb Z.compare trunc_axis];
         rewrite ?Z.mul_0_r, ?Z.mul_1_r, ?mul_0_5 by assumption;
         reflexivity).
  contradiction.
Qed.

Lemma calculate_position_unknown :
  dict_mem POSITIONS (position cfg) = false ->
  _calculate_position image w h cfg
  = (Some (trunc_position (position cfg) image w h),
     set_position cfg "bottom-right").
Proof.
  intros Hmem.
  unfold _calculate_position, bind, config, or_raise, ret, assign_position.
  rewrite Hmem. cbn [negb].
  rewrite mul_0_05 by lia.
  unfold trunc_position, trunc_margin. rewrite (spec_anchor_unknown _ Hmem).
  cbn [set_position position POSITIONS dict_item String.eqb Ascii.eqb Bool.eqb].
  cbn [eq_int int_mul Py.int orb andb c0_5 mant expo Z.leb Z.eqb Z.compare trunc_axis].
  rewrite ?Z.mul_1_r. reflexivity.
Qed.

Lemma calculate_position_eq :
  _calculate_position image w h cfg
  = (Some (trunc_position (position cfg) image w h),
     if dict_mem POSITIONS (position cfg) then cfg
     else set_position cfg "bottom-right").
Proof.
  destruct (dict_mem POSITIONS (position cfg)) eqn:E.
  - apply calculate_position_known, E.
  - apply calculate_position_unknown, E.
Qed.
End Position.

(** C6, as the code has it.  For every image (sizes below 2^31) and every
    configured position, [_calculate_position] returns, on each axis:
    [margin] for factor 0 and [dimension - watermark_dimension - margin] for
    factor 1, with [margin = int(min(width, height) * 0.05)], which is
    [floor(min(width, height) * 5 / 100)]; and
    [int((dimension - watermark_dimension) * 0.5)], the half truncated
    toward zero, for factor 0.5, where no margin is applied.  [int()]
    truncates where the claim says [round]. *)
Theorem calculate_position_truncates (cfg : Config) (image : Image) (w h : Z) :
  0 <= width image < 2 ^ 31 -> 0 <= height image < 2 ^ 31 ->
  Z.abs w < 2 ^ 31 -> Z.abs h < 2 ^ 31 ->
  fst (_calculate_position image w h cfg)
  = Some (trunc_position (position cfg) image w h).
Proof.
  intros. rewrite calculate_position_eq by lia. reflexivity.
Qed.

Lemma calculate_position_truncates_witness :
  fst (_calculate_position (plain "RGB" 35 35 [0; 0; 0]) 11 10
                           (with_position defaults "top-center"))
  = Some (12, 1).
Proof.
  apply (calculate_position_truncates (with_position defaults "top-center")
                                      (plain "RGB" 35 35 [0; 0; 0]) 11 10);
    cbn; lia.
Defined.

(** C6 as stated fails: on a 35 by 35 image the margin of the code is
    [int(1.75) = 1], not [round(1.75) = 2]; a watermark anchored
    top-center is placed at [y = 1]. *)
Lemma calculate_position_rounds_counterexample :
  fst (_calculate_position (plain "RGB" 35 35 [0; 0; 0]) 11 10
                           (with_position defaults "top-center"))
  = Some (12, 1) /\
  spec_position "top-center" (plain "RGB" 35 35 [0; 0; 0]) 11 10 = (12, 2).
Proof. split; vm_compute; reflexivity. Qed.

(** C2, as the code has it.  For every image (sizes below 2^31), every
    anchor, edge anchors included, and every watermark width and height that
    fit the image together with the margin
    ([watermark_width + margin <= width], [watermark_height + margin <=
    height], [margin = floor(min(width, height) * 5 / 100)]), the returned
    [(x, y)] keeps the whole watermark box inside the image: [0 <= x],
    [x + watermark_width <= width], [0 <= y],
    [y + watermark_height <= height]. *)
Theorem calculate_position_inside (cfg : Config) (image : Image) (w h : Z) :
  0 <= width image < 2 ^ 31 -> 0 <= height image < 2 ^ 31 ->
  0 <= w -> 0 <= h ->
  w + trunc_margin image <= width image ->
  h + trunc_margin image <= height image ->
  exists xy, fst (_calculate_position image w h cfg) = Some xy /\
             box_inside image xy w h.
Proof.
  intros HW HH Hw Hh Hfw Hfh.
  assert (Hm : 0 <= trunc_margin image).
  { unfold trunc_margin. apply Z.div_pos; lia. }
  rewrite calculate_position_eq by lia. cbn [fst].
  eexists; split; [reflexivity|].
  unfold trunc_position, box_inside.
  set (m := trunc_margin image) in *. clearbody m.
  assert (Qw : 0 <= Z.quot (width image - w) 2 <= width image - w).
  { rewrite Z.quot_div_nonneg by lia. split; [apply Z.div_pos; lia|].
    apply Z.div_le_upper_bound; lia. }
  assert (Qh : 0 <= Z.quot (height image - h) 2 <= height image - h).
  { rewrite Z.quot_div_nonneg by lia. split; [apply Z.div_pos; lia|].
    apply Z.div_le_upper_bound; lia. }
  destruct (spec_anchor (position cfg)) as [[] []]; cbn [fst snd trunc_axis]; lia.
Qed.

Lemma calculate_position_inside_witness :
  exists xy,
    fst (_calculate_position (plain "RGB" 1000 1000 [0; 0; 0]) 120 30 defaults)
    = Some xy /\
    box_inside (plain "RGB" 1000 1000 [0; 0; 0]) xy 120 30.
Proof.
  apply (calculate_position_inside defaults (plain "RGB" 1000 1000 [0; 0; 0]) 120 30);
    cbn; lia.
Defined.

(** C2 as stated fails: a watermark 200 wide on an image 100 wide, anchored
    top-left, is placed at [x = 5] and ends at 205, outside the image. *)
Lemma calculate_position_outside_counterexample :
  fst (_calculate_position (plain "RGB" 100 100 [0; 0; 0]) 200 50
                           (with_position defaults "top-left"))
  = Some (5, 5) /\
  ~ box_inside (plain "RGB" 100 100 [0; 0; 0]) (5, 5) 200 50.
Proof.
  split; [vm_compute; reflexivity|].
  unfold box_inside. cbn. lia.
Qed.

(* ================================================================== *)
(** ** What the methods do to [self.config] *)
(* ================================================================== *)

Lemma position_defaulted_refl c : position_defaulted c c.
Proof. left. reflexivity. Qed.

Lemma position_defaulted_trans c1 c2 c3 :
  position_defaulted c1 c2 -> position_defaulted c2 c3 -> position_defaulted c1 c3.
Proof.
  intros [-> | [H1 ->]] [-> | [H2 ->]].
  - left. reflexivity.
  - right. now split.
  - right. now split.
  - cbn in H2. discriminate.
Qed.

Lemma keeps_ret {A : Type} (a : A) : keeps_config (ret a).
Proof. intros c. apply position_defaulted_refl. Qed.

Lemma keeps_raise {A : Type} : keeps_config (@raise A).
Proof. intros c. apply position_defaulted_refl. Qed.

Lemma keeps_read : keeps_config config.
Proof. intros c. apply position_defaulted_refl. Qed.

Lemma keeps_or_raise {A : Type} (o : option A) : keeps_config (or_raise o).
Proof. intros c. apply position_defaulted_refl. Qed.

Lemma keeps_bind {A B : Type} (m : M A) (k : A -> M B) :
  keeps_config m -> (forall a, keeps_config (k a)) -> keeps_config (bind m k).
Proof.
  intros Hm Hk c. unfold bind. specialize (Hm c).
  destruct (m c) as [[a|] c']; cbn [snd] in *; [|exact Hm].
  eapply position_defaulted_trans; [exact Hm|apply Hk].
Qed.

Lemma keeps_try_except {A : Type} (m h : M A) :
  keeps_config m -> keeps_config h -> keeps_config (try_except m h).
Proof.
  intros Hm Hh c. unfold try_except. specialize (Hm c).
  destruct (m c) as [[a|] c']; cbn [snd] in *; [exact Hm|].
  eapply position_defaulted_trans; [exact Hm|apply Hh].
Qed.

Lemma keeps_if {A : Type} (b : bool) (m1 m2 : M A) :
  keeps_config m1 -> keeps_config m2 -> keeps_config (if b then m1 else m2).
Proof. destruct b; tauto. Qed.

Ltac keeps_step :=
  first
    [ apply keeps_ret | apply keeps_raise | apply keeps_read
    | apply keeps_or_raise | apply keeps_if
    | apply keeps_try_except
    | apply keeps_bind; [|intros]
    | match goal with
      | |- keeps_config (match ?x with _ => _ end) => destruct x
      end ].

Lemma keeps_calculate_size image : keeps_config (_calculate_size image).
Proof. unfold _calculate_size. repeat keeps_step. Qed.

Lemma keeps_calculate_position image w h :
  keeps_config (_calculate_position image w h).
Proof.
  intros c. unfold _calculate_position, bind, config, assign_position, or_raise, ret.
  destruct (dict_mem POSITIONS (position c)) eqn:E; cbn [negb].
  - left. destruct (dict_item POSITIONS (position c)) as [[[[? ?] ?] ?]|]; reflexivity.
  - right. split; [exact E|].
    destruct (dict_item POSITIONS (position (set_position c "bottom-right")))
      as [[[[? ?] ?] ?]|]; reflexivity.
Qed.

Section WithLibrary.
Variable lib : Library.

Lemma keeps_add_text_watermark image : keeps_config (add_text_watermark lib image).
Proof.
  unfold add_text_watermark.
  repeat first [ apply keeps_calculate_size | apply keeps_calculate_position
               | keeps_step ].
Qed.

Lemma keeps_add_image_watermark image : keeps_config (add_image_watermark lib image).
Proof.
  unfold add_image_watermark.
  repeat first [ apply keeps_calculate_size | apply keeps_calculate_position
               | keeps_step ].
Qed.

Lemma keeps_process_image path : keeps_config (process_image lib path).
Proof.
  unfold process_image.
  repeat first [ apply keeps_add_text_watermark | apply keeps_add_image_watermark
               | keeps_step ].
Qed.

Lemma keeps_print out t : keeps_config (print out t).
Proof. intros c. unfold print. destruct (encodes out t); apply position_defaulted_refl. Qed.

Lemma keeps_process_entry out r e : keeps_config (process_entry lib out r e).
Proof.
  unfold process_entry.
  repeat first [ apply keeps_process_image | apply keeps_print | keeps_step ].
Qed.

Lemma keeps_process_entries out entries :
  forall r, keeps_config (process_entries lib out r entries).
Proof.
  induction entries as [|e rest IH]; intros r; cbn [process_entries].
  - apply keeps_ret.
  - apply keeps_bind; [apply keeps_process_entry|]. intros r'. apply IH.
Qed.

Lemma keeps_process_directory out dir : keeps_config (process_directory lib out dir).
Proof.
  unfold process_directory.
  repeat first [ apply keeps_process_entries | keeps_step ].
Qed.
End WithLibrary.

(** A configuration whose position is one of the nine anchors is left as
    it was. *)
Lemma keeps_known {A : Type} (m : M A) c :
  keeps_config m -> dict_mem POSITIONS (position c) = true -> snd (m c) = c.
Proof.
  intros Hm Hp. destruct (Hm c) as [E | [E _]]; [exact E|].
  rewrite Hp in E. discriminate.
Qed.

(* ================================================================== *)
(** ** The colour of the text *)
(* ================================================================== *)

Lemma dict_get_absent {V : Type} (d : list (string * V)) k v :
  dict_mem d k = false -> dict_get d k v = v.
Proof.
  induction d as [|[k' v'] d IH]; cbn; [reflexivity|].
  intros H. apply orb_false_iff in H. destruct H as [H1 H2].
  rewrite H1. apply IH, H2.
Qed.

Lemma colors_no_hash t :
  String.prefix "#" t = true -> dict_get COLORS t (255, 255, 255) = (255, 255, 255).
Proof.
  destruct t as [|c t]; [discriminate|]. cbn [String.prefix].
  destruct (ascii_dec "#" c) as [<-|]; [|discriminate].
  intros _. reflexivity.
Qed.

(** [Int16.parse] on the strings [int(s, 16)] is known to take and to
    refuse: blanks around the digits, a sign, the [0x] prefix, underscores,
    and the separator bytes 28 to 31, which are no blanks for [int]. *)
Lemma parse_samples :
  Int16.parse " f" = Some 15 /\ Int16.parse "f " = Some 15 /\
  Int16.parse "+f" = Some 15 /\ Int16.parse "-f" = Some (-15) /\
  Int16.parse "0x1f" = Some 31 /\ Int16.parse "0x_f" = Some 15 /\
  Int16.parse "f_f" = Some 255 /\
  Int16.parse "0x" = None /\ Int16.parse "_f" = None /\
  Int16.parse "f_" = None /\ Int16.parse "f__f" = None /\
  Int16.parse "" = None /\ Int16.parse "g0" = None /\
  Int16.parse (String (ascii_of_nat 11) "f") = Some 15 /\
  Int16.parse (String (ascii_of_nat 28) "f") = None /\
  Int16.parse (String (ascii_of_nat 31) "f") = None.
Proof. repeat split; reflexivity. Qed.

(** C7.  The colour resolution is case-insensitive; ["#F00"] and
    ["#FF0000"] both resolve to (255, 0, 0); the table of names has 12
    entries and a name that is not in it resolves to (255, 255, 255); a
    string that starts with [#], has length 4 or 7 and does not parse as
    hex falls back to the name lookup, which gives white. *)
Theorem color_resolution :
  (forall s t, lower s = lower t -> resolve_color s = resolve_color t) /\
  List.length COLORS = 12%nat /\
  resolve_color "#F00" = (255, 0, 0) /\
  resolve_color "#FF0000" = (255, 0, 0) /\
  (forall s, hex_shaped (lower s) = false ->
             dict_mem COLORS (lower s) = false ->
             resolve_color s = (255, 255, 255)) /\
  (forall s, hex_shaped (lower s) = true ->
             hex_color (lower s) = None ->
             resolve_color s = dict_get COLORS (lower s) (255, 255, 255) /\
             resolve_color s = (255, 255, 255)).
Proof.
  repeat split.
  - intros s t H. unfold resolve_color. rewrite H. reflexivity.
  - intros s Hs Hm. unfold resolve_color. unfold hex_shaped in Hs. rewrite Hs.
    apply dict_get_absent, Hm.
  - unfold resolve_color. unfold hex_shaped in H. rewrite H, H0. reflexivity.
  - unfold resolve_color. pose proof H as H'. unfold hex_shaped in H. rewrite H, H0.
    apply colors_no_hash. unfold hex_shaped in H'.
    apply andb_true_iff in H'. tauto.
Qed.

Lemma color_resolution_witness :
  resolve_color "RED" = resolve_color "red" /\
  resolve_color "lime" = (255, 255, 255) /\
  resolve_color "#GGG" = (255, 255, 255) /\
  resolve_color ("#" ++ String (ascii_of_nat 28) "f"
                     ++ String (ascii_of_nat 28) "f"
                     ++ String (ascii_of_nat 28) "f") = (255, 255, 255).
Proof.
  destruct color_resolution as (Hcase & _ & _ & _ & Hname & Hhex).
  split; [apply Hcase; reflexivity|].
  split; [apply Hname; reflexivity|].
  split; apply Hhex; reflexivity.
Defined.

(* ================================================================== *)
(** ** The mode-preserving pipeline *)
(* ================================================================== *)

(** Case analysis on the innermost [match] of a hypothesis. *)
Ltac destruct_inner H :=
  match type of H with
  | context [match ?x with _ => _ end] =>
      lazymatch x with
      | context [match _ with _ => _ end] => fail
      | _ => destruct x; try discriminate H
      end
  end.

Section Pipeline.
Variable lib : Library.

Lemma working_copy_mode image : mode (working_copy lib image) = "RGBA".
Proof.
  unfold working_copy. destruct (String.eqb_spec (mode image) "RGBA") as [E|E]; cbn.
  - exact E.
  - reflexivity.
Qed.

Lemma working_copy_idem image :
  working_copy lib (working_copy lib image) = working_copy lib image.
Proof.
  unfold working_copy at 1. rewrite working_copy_mode. reflexivity.
Qed.

Lemma process_image_unreadable path cfg :
  open_file lib path = None -> process_image lib path cfg = (Some None, cfg).
Proof.
  intros H. unfold process_image, try_except, bind, or_raise, ret. rewrite H. reflexivity.
Qed.

Lemma process_image_text path cfg src :
  open_file lib path = Some src -> truthy (text cfg) = true ->
  process_image lib path cfg
  = match add_text_watermark lib (working_copy lib src) cfg with
    | (Some w, c') => (Some (Some (restore_mode lib (mode src) w)), c')
    | (None, c') => (Some None, c')
    end.
Proof.
  intros Ho Ht. unfold process_image, try_except, bind, or_raise, ret, config.
  rewrite Ho, Ht. fold (working_copy lib src).
  destruct (add_text_watermark lib (working_copy lib src) cfg) as [[w|] c']; reflexivity.
Qed.

Lemma process_image_image path cfg src :
  open_file lib path = Some src ->
  truthy (text cfg) = false -> truthy (image_path cfg) = true ->
  process_image lib path cfg
  = match add_image_watermark lib (working_copy lib src) cfg with
    | (Some w, c') => (Some (Some (restore_mode lib (mode src) w)), c')
    | (None, c') => (Some None, c')
    end.
Proof.
  intros Ho Ht Hi. unfold process_image, try_except, bind, or_raise, ret, config.
  rewrite Ho, Ht, Hi. fold (working_copy lib src).
  destruct (add_image_watermark lib (working_copy lib src) cfg) as [[w|] c']; reflexivity.
Qed.

Lemma process_image_skipped path cfg src :
  open_file lib path = Some src ->
  truthy (text cfg) = false -> truthy (image_path cfg) = false ->
  process_image lib path cfg = (Some (Some (working_copy lib src)), cfg).
Proof.
  intros Ho Ht Hi. unfold process_image, try_except, bind, or_raise, ret, config.
  rewrite Ho, Ht, Hi. reflexivity.
Qed.

Lemma restore_mode_mode m w :
  mode w = "RGBA" ->
  m = "RGBA" \/ m = "RGB" \/ m = "L" \/ m = "P" ->
  mode (restore_mode lib m w) = m.
Proof.
  intros Hw Hm. unfold restore_mode.
  destruct Hm as [-> | [-> | [-> | ->]]]; cbn; try reflexivity. exact Hw.
Qed.

Lemma add_text_watermark_mode image cfg w c' :
  add_text_watermark lib image cfg = (Some w, c') -> mode w = "RGBA".
Proof.
  unfold add_text_watermark, bind, config, or_raise, ret. intros H.
  repeat destruct_inner H; injection H as <- _; reflexivity.
Qed.


Lemma add_image_watermark_mode image cfg w c' :
  mode image = "RGBA" ->
  add_image_watermark lib image cfg = (Some w, c') -> mode w = "RGBA".
Proof.
  intros Hm. unfold add_image_watermark, try_except, bind, config, or_raise, ret.
  intros H.
  repeat destruct_inner H; injection H as <- _; first [reflexivity | exact Hm].
Qed.

(** On the four documented modes a watermarked result has the mode of the
    file. *)
Lemma process_image_mode_kept path cfg src out c' :
  open_file lib path = Some src ->
  mode src = "RGBA" \/ mode src = "RGB" \/ mode src = "L" \/ mode src = "P" ->
  truthy (text cfg) || truthy (image_path cfg) = true ->
  process_image lib path cfg = (Some (Some out), c') ->
  mode out = mode src.
Proof.
  intros Ho Hm Hc H.
  destruct (truthy (text cfg)) eqn:Ht.
  - rewrite (process_image_text _ _ _ Ho Ht) in H.
    destruct (add_text_watermark lib (working_copy lib src) cfg) as [[w|] c1] eqn:E;
      [|discriminate].
    injection H as <- _. apply restore_mode_mode; [|exact Hm].
    eapply add_text_watermark_mode, E.
  - cbn in Hc. rewrite (process_image_image _ _ _ Ho Ht Hc) in H.
    destruct (add_image_watermark lib (working_copy lib src) cfg) as [[w|] c1] eqn:E;
      [|discriminate].
    injection H as <- _. apply restore_mode_mode; [|exact Hm].
    eapply add_image_watermark_mode; [apply working_copy_mode|exact E].
Qed.
End Pipeline.

(* ================================================================== *)
(** ** The position written into the configuration *)
(* ================================================================== *)

Lemma positions_item_mem p :
  dict_mem POSITIONS p = true -> exists v, dict_item POSITIONS p = Some v.
Proof.
  intros H. apply positions_mem in H. cbn [In] in H.
  repeat (destruct H as [<- | H]; [eexists; reflexivity|]). contradiction.
Qed.

Lemma calculate_position_config (cfg : Config) (image : Image) (w h : Z) :
  snd (_calculate_position image w h cfg)
  = if dict_mem POSITIONS (position cfg) then cfg
    else set_position cfg "bottom-right".
Proof.
  unfold _calculate_position, bind, config, or_raise, ret, assign_position.
  destruct (dict_mem POSITIONS (position cfg)) eqn:E; cbn [negb].
  - destruct (positions_item_mem _ E) as ([[[xf yf] ?] ?] & ->). reflexivity.
  - reflexivity.
Qed.

Lemma calculate_size_never_raises image cfg :
  exists s, _calculate_size image cfg = (Some s, cfg).
Proof.
  unfold _calculate_size, bind, config, or_raise, ret.
  destruct (pixel_size cfg) as [p|]; [destruct (0 <? p)|]; eexists; reflexivity.
Qed.

Section CarryOver.
Variables (lib : Library) (out : Stdout) (c : Config) (label : string).
Hypothesis Hunknown : dict_mem POSITIONS (position c) = false.
Hypothesis Htext : text c = Some label.
Hypothesis Hlabel : label <> "".
Hypothesis Hfont : forall s, rasterize lib s label <> None.

Lemma text_truthy : truthy (text c) = true.
Proof. rewrite Htext. destruct label; [contradiction|reflexivity]. Qed.

Lemma add_text_watermark_assigns image :
  snd (add_text_watermark lib image c) = set_position c "bottom-right".
Proof.
  unfold add_text_watermark, bind, config, or_raise, ret.
  destruct (calculate_size_never_raises image c) as (s & ->).
  rewrite Htext.
  destruct (rasterize lib s label) as [[[tw th] glyphs]|] eqn:Er;
    [|exfalso; exact (Hfont s Er)].
  pose proof (calculate_position_config c image tw th) as Hc.
  rewrite Hunknown in Hc.
  destruct (_calculate_position image tw th c) as [[[x y]|] c1];
    cbn [snd] in Hc; subst c1; [|reflexivity].
  destruct (resolve_color (text_color c)) as [[r g] b].
  destruct (fill_alpha (opacity c)); reflexivity.
Qed.

Lemma process_image_assigns path src :
  open_file lib path = Some src ->
  exists result,
    process_image lib path c = (Some result, set_position c "bottom-right").
Proof.
  intros Ho. rewrite (process_image_text lib path c src Ho text_truthy).
  pose proof (add_text_watermark_assigns (working_copy lib src)) as Hc.
  destruct (add_text_watermark lib (working_copy lib src) c) as [[w|] c1];
    cbn [snd] in Hc; subst c1; eexists; reflexivity.
Qed.

Lemma process_entry_assigns r e src :
  supported e = true ->
  open_file lib (joinpath (input_folder c) (name e)) = Some src ->
  snd (process_entry lib out r e c) = set_position c "bottom-right".
Proof.
  intros Hs Ho. unfold process_entry. rewrite Hs.
  unfold try_except, bind, config, ret, raise, print.
  destruct (process_image_assigns _ src Ho) as ([w|] & ->).
  - match goal with |- context [save lib ?f ?i] => destruct (save lib f i) end.
    + match goal with |- context [encodes out (saved_message ?f)] =>
        destruct (encodes out (saved_message f)) end; [reflexivity|].
      destruct (encodes out error_message); reflexivity.
    + destruct (encodes out error_message); reflexivity.
  - reflexivity.
Qed.

Lemma bottom_right_known :
  dict_mem POSITIONS (position (set_position c "bottom-right")) = true.
Proof. reflexivity. Qed.

Lemma process_entries_assign r e rest src :
  supported e = true ->
  open_file lib (joinpath (input_folder c) (name e)) = Some src ->
  exists o,
    process_entry lib out r e c = (o, set_position c "bottom-right") /\
    process_entries lib out r (e :: rest) c
    = match o with
      | Some r' => process_entries lib out r' rest (set_position c "bottom-right")
      | None => (None, set_position c "bottom-right")
      end /\
    snd (process_entries lib out r (e :: rest) c) = set_position c "bottom-right".
Proof.
  intros Hs Ho. pose proof (process_entry_assigns r e src Hs Ho) as Hc.
  cbn [process_entries]. unfold bind.
  destruct (process_entry lib out r e c) as [o c1]. cbn [snd] in Hc. subst c1.
  exists o. split; [reflexivity|].
  destruct o as [r'|]; (split; [reflexivity|]); [|reflexivity].
  apply keeps_known; [apply keeps_process_entries|apply bottom_right_known].
Qed.
End CarryOver.

Lemma process_entries_carry lib out c r e rest :
  exists o c1,
    process_entry lib out r e c = (o, c1) /\
    position_defaulted c c1 /\
    process_entries lib out r (e :: rest) c
    = match o with
      | Some r' => process_entries lib out r' rest c1
      | None => (None, c1)
      end /\
    (c1 <> c ->
     snd (process_entries lib out r (e :: rest) c) = set_position c "bottom-right").
Proof.
  pose proof (keeps_process_entry lib out r e c) as Hk.
  cbn [process_entries]. unfold bind.
  destruct (process_entry lib out r e c) as [o c1]. cbn [snd] in Hk.
  exists o, c1. split; [reflexivity|]. split; [exact Hk|].
  split; [destruct o; reflexivity|].
  intros Hne. destruct Hk as [E | [_ E]]; [contradiction|]. subst c1.
  destruct o as [r'|]; [|reflexivity].
  apply keeps_known; [apply keeps_process_entries|reflexivity].
Qed.

(** C8, as the code has it.  No operation of the watermarker (size
    calculation, position calculation, text or image compositing, per-file
    processing, the batch run) modifies a field of the configuration other
    than [position], and [position] only from a name that is not one of the
    nine anchors to ["bottom-right"].  The position calculation does make
    that assignment: it leaves ["bottom-right"] in the configuration
    whenever the configured name is not an anchor, and leaves a
    configuration with an anchor as it was.  The assignment carries over:
    once a file of a run with a text watermark has reached the position
    calculation, the files after it are processed with the position
    ["bottom-right"], and that is the position the run leaves behind.  With
    any watermark, the files after a file are processed with the
    configuration that file left, and a configuration it changed is the
    one the run leaves behind. *)
Theorem config_only_position_defaulted
        (lib : Library) (out : Stdout) (image : Image) (w h : Z) (path : string)
        (dir : Folder) :
  (keeps_config (_calculate_size image) /\
   keeps_config (_calculate_position image w h) /\
   keeps_config (add_text_watermark lib image) /\
   keeps_config (add_image_watermark lib image) /\
   keeps_config (process_image lib path) /\
   keeps_config (process_directory lib out dir)) /\
  (forall c,
     snd (_calculate_position image w h c)
     = if dict_mem POSITIONS (position c) then c
       else set_position c "bottom-right") /\
  (forall c label r e rest src,
     dict_mem POSITIONS (position c) = false ->
     text c = Some label -> label <> "" ->
     (forall s, rasterize lib s label <> None) ->
     supported e = true ->
     open_file lib (joinpath (input_folder c) (name e)) = Some src ->
     exists o,
       process_entry lib out r e c = (o, set_position c "bottom-right") /\
       process_entries lib out r (e :: rest) c
       = match o with
         | Some r' =>
             process_entries lib out r' rest (set_position c "bottom-right")
         | None => (None, set_position c "bottom-right")
         end /\
       snd (process_entries lib out r (e :: rest) c)
       = set_position c "bottom-right") /\
  (forall c r e rest,
     exists o c1,
       process_entry lib out r e c = (o, c1) /\
       position_defaulted c c1 /\
       process_entries lib out r (e :: rest) c
       = match o with
         | Some r' => process_entries lib out r' rest c1
         | None => (None, c1)
         end /\
       (c1 <> c ->
        snd (process_entries lib out r (e :: rest) c)
        = set_position c "bottom-right")).
Proof.
  split; [|split; [|split]].
  - repeat split.
    + apply keeps_calculate_size.
    + apply keeps_calculate_position.
    + apply keeps_add_text_watermark.
    + apply keeps_add_image_watermark.
    + apply keeps_process_image.
    + apply keeps_process_directory.
  - intros c. apply calculate_position_config.
  - intros c label r e rest src Hu Ht Hl Hf Hs Ho.
    exact (process_entries_assign lib out c label Hu Ht Hl Hf r e rest src Hs Ho).
  - intros c r e rest. apply process_entries_carry.
Qed.

Lemma config_only_position_defaulted_witness :
  snd (process_entries photos utf8 (mkReport [] 0 0)
         [mkEntry "photo.jpg" true; mkEntry "photo.jpg" true]
         (with_position defaults "middle"))
  = set_position (with_position defaults "middle") "bottom-right".
Proof.
  destruct (config_only_position_defaulted photos utf8
              (plain "RGB" 100 80 [10; 20; 30]) 40 12 "input/photo.jpg"
              (listed [])) as (_ & _ & Hcarry & _).
  destruct (Hcarry (with_position defaults "middle") "@ghostmark"
              (mkReport [] 0 0) (mkEntry "photo.jpg" true)
              [mkEntry "photo.jpg" true] (plain "RGB" 100 80 [10; 20; 30])
              eq_refl eq_refl ltac:(discriminate)
              ltac:(intros s; cbn; discriminate) eq_refl eq_refl)
    as (o & _ & _ & Hlast).
  exact Hlast.
Defined.

(** C8 as stated fails: with the position ["middle"] the position
    calculation writes ["bottom-right"] into the configuration. *)
Lemma config_mutated_counterexample :
  snd (_calculate_position (plain "RGB" 100 100 [0; 0; 0]) 10 10
                           (with_position defaults "middle"))
  <> with_position defaults "middle".
Proof. vm_compute. discriminate. Qed.

(** C1, the Skipped case at work: when neither a text nor an image path is
    configured, [process_image] returns the RGBA working copy of the file,
    whatever the mode of the file was; the conversion back to the original
    mode is not reached.  ([process_image_mode_kept] is the part of the claim
    that holds: a watermarked result has the mode of the file.) *)
Theorem process_image_skipped_rgba (lib : Library) (path : string)
        (cfg : Config) (src : Image) :
  open_file lib path = Some src ->
  truthy (text cfg) = false -> truthy (image_path cfg) = false ->
  exists out, process_image lib path cfg = (Some (Some out), cfg) /\
              out = working_copy lib src /\ mode out = "RGBA".
Proof.
  intros Ho Ht Hi. exists (working_copy lib src).
  split; [apply process_image_skipped; assumption|].
  split; [reflexivity|apply working_copy_mode].
Qed.

Lemma process_image_skipped_rgba_witness :
  exists out,
    process_image photos "input/photo.jpg" (with_text defaults (Some ""))
    = (Some (Some out), with_text defaults (Some "")) /\
    out = working_copy photos (plain "RGB" 100 80 [10; 20; 30]) /\
    mode out = "RGBA".
Proof.
  apply (process_image_skipped_rgba photos "input/photo.jpg"
           (with_text defaults (Some "")) (plain "RGB" 100 80 [10; 20; 30]));
    reflexivity.
Defined.


Ltac destruct_inner_goal :=
  match goal with
  | |- context [match ?x with _ => _ end] =>
      lazymatch x with
      | context [match _ with _ => _ end] => fail
      | _ => destruct x
      end
  end.

Lemma calculate_position_ignores_image_path image w h cfg p :
  _calculate_position image w h (set_image_path cfg p)
  = (fst (_calculate_position image w h cfg),
     set_image_path (snd (_calculate_position image w h cfg)) p).
Proof.
  destruct cfg.
  unfold _calculate_position,
    bind, config, or_raise, ret, assign_position, set_image_path, set_position.
  cbn [text position pixel_size size text_color opacity input_folder
       output_folder image_path prefix].
  destruct (dict_mem POSITIONS position0); cbn [negb position].
  - destruct (dict_item POSITIONS position0) as [[[[? ?] ?] ?]|]; reflexivity.
  - destruct (dict_item POSITIONS "bottom-right") as [[[[? ?] ?] ?]|]; reflexivity.
Qed.

Lemma calculate_size_ignores_image_path image cfg p :
  _calculate_size image (set_image_path cfg p)
  = (fst (_calculate_size image cfg), set_image_path cfg p).
Proof.
  destruct cfg. unfold _calculate_size, bind, config, or_raise, ret, set_image_path.
  cbn [pixel_size size].
  destruct pixel_size0 as [z|]; [destruct (0 <? z)|]; reflexivity.
Qed.

Lemma calculate_size_config image cfg : snd (_calculate_size image cfg) = cfg.
Proof.
  unfold _calculate_size, bind, config, or_raise, ret.
  destruct (pixel_size cfg) as [z|]; [destruct (0 <? z)|]; reflexivity.
Qed.

Lemma add_text_ignores_image_path lib image cfg p :
  add_text_watermark lib image (set_image_path cfg p)
  = (fst (add_text_watermark lib image cfg),
     set_image_path (snd (add_text_watermark lib image cfg)) p).
Proof.
  unfold add_text_watermark, bind, config, or_raise, ret.
  rewrite calculate_size_ignores_image_path.
  pose proof (calculate_size_config image cfg) as Hs.
  destruct (_calculate_size image cfg) as [[s|] c1]; cbn [fst snd] in *; subst c1;
    [|reflexivity].
  change (text (set_image_path cfg p)) with (text cfg).
  destruct (text cfg) as [t|]; [|reflexivity].
  destruct (rasterize lib s t) as [[[tw th] g]|]; [|reflexivity].
  rewrite calculate_position_ignores_image_path.
  destruct (_calculate_position image tw th cfg) as [[[x y]|] c2]; cbn [fst snd];
    [|reflexivity].
  change (text_color (set_image_path cfg p)) with (text_color cfg).
  change (opacity (set_image_path cfg p)) with (opacity cfg).
  destruct (resolve_color (text_color cfg)) as [[r g0] b].
  destruct (fill_alpha (opacity cfg)); reflexivity.
Qed.

(** C10.  With a non-empty watermark text, [process_image] applies the text
    watermark: the result is the same whatever the image path is and
    whatever files stand behind the other paths, so the watermark image is
    never read.  The image watermark is applied when the text is empty or
    absent and an image path is configured. *)
Theorem text_watermark_has_priority (lib : Library) (path : string) (cfg : Config) :
  (truthy (text cfg) = true ->
   (forall src, open_file lib path = Some src ->
      process_image lib path cfg
      = match add_text_watermark lib (working_copy lib src) cfg with
        | (Some w, c') => (Some (Some (restore_mode lib (mode src) w)), c')
        | (None, c') => (Some None, c')
        end) /\
   (forall p, process_image lib path (set_image_path cfg p)
              = (fst (process_image lib path cfg),
                 set_image_path (snd (process_image lib path cfg)) p)) /\
   (forall f, f path = open_file lib path ->
              process_image (set_open_file lib f) path cfg
              = process_image lib path cfg)) /\
  (truthy (text cfg) = false -> truthy (image_path cfg) = true ->
   forall src, open_file lib path = Some src ->
     process_image lib path cfg
     = match add_image_watermark lib (working_copy lib src) cfg with
       | (Some w, c') => (Some (Some (restore_mode lib (mode src) w)), c')
       | (None, c') => (Some None, c')
       end).
Proof.
  split.
  - intros Ht. split; [|split].
    + intros src Ho. apply process_image_text; assumption.
    + intros p. destruct (open_file lib path) as [src|] eqn:Ho.
      * rewrite (process_image_text lib path (set_image_path cfg p) src Ho Ht).
        rewrite (process_image_text lib path cfg src Ho Ht).
        rewrite add_text_ignores_image_path.
        destruct (add_text_watermark lib (working_copy lib src) cfg) as [[w|] c'];
          reflexivity.
      * rewrite !process_image_unreadable by assumption. reflexivity.
    + intros f Hf. unfold process_image, try_except, bind, or_raise, ret, config.
      cbn [open_file set_open_file]. rewrite Hf, Ht.
      destruct (open_file lib path) as [src|]; reflexivity.
  - intros Ht Hi src Ho. apply process_image_image; assumption.
Qed.

Lemma text_watermark_has_priority_witness :
  process_image photos "input/photo.jpg"
                (set_image_path defaults (Some "logo.png"))
  = (fst (process_image photos "input/photo.jpg" defaults),
     set_image_path (snd (process_image photos "input/photo.jpg" defaults))
                    (Some "logo.png")).
Proof.
  destruct (text_watermark_has_priority photos "input/photo.jpg" defaults)
    as [Htext _].
  destruct (Htext eq_refl) as (_ & Hpath & _).
  apply Hpath.
Defined.

(* ================================================================== *)
(** ** Opacity 0 *)
(* ================================================================== *)

Lemma div255_255 o : 0 <= o <= 255 -> div255 (o * 255) = o.
Proof.
  intros H. unfold div255. cbv zeta. rewrite !Z.shiftr_div_pow2 by lia.
  change (2 ^ 8) with 256.
  assert (E : (o * 255 + 128) / 256 = o - (if o <=? 128 then 0 else 1)).
  { destruct (Z.leb_spec o 128).
    - symmetry. apply (Z.div_unique _ 256 _ (128 - o)); lia.
    - symmetry. apply (Z.div_unique _ 256 _ (384 - o)); lia. }
  rewrite E. destruct (Z.leb_spec o 128).
  - symmetry. apply (Z.div_unique _ 256 _ 128); lia.
  - symmetry. apply (Z.div_unique _ 256 _ 127); lia.
Qed.

Lemma blend8_0 o v : 0 <= o <= 255 -> blend8 0 o v = o.
Proof.
  intros H. unfold blend8. rewrite Z.mul_0_r, Z.add_0_r, Z.sub_0_r.
  apply div255_255, H.
Qed.

Lemma blend8_255 o v : 0 <= v <= 255 -> blend8 255 o v = v.
Proof.
  intros H. unfold blend8. change (255 - 255) with 0.
  rewrite Z.mul_0_r, Z.add_0_l. apply div255_255, H.
Qed.

Lemma blend_bands_0 dst : forall src,
  Forall (fun v => 0 <= v <= 255) dst -> blend_bands 0 dst src = dst.
Proof.
  induction dst as [|o dst IH]; intros src H; [reflexivity|].
  destruct src as [|v src]; [reflexivity|]. cbn [blend_bands].
  inversion H; subst. rewrite blend8_0 by assumption. f_equal. apply IH. assumption.
Qed.

Lemma fill_alpha_zero o : mant o = 0 -> fill_alpha o = Some 0.
Proof.
  intros H. unfold fill_alpha, fmul. rewrite H, Z.mul_0_r.
  unfold scale2. destruct (0 <=? - (expo (of_int 255) + expo o)); cbn; reflexivity.
Qed.

Lemma ltb_zero_one o : mant o = 0 -> ltb o c1_0 = true.
Proof.
  intros H. unfold ltb, c1_0. cbn [mant expo]. rewrite H.
  apply Z.ltb_lt. rewrite Z.mul_0_l.
  pose proof (pow2_gt0 (0 - Z.min (expo o) 0) ltac:(lia)). lia.
Qed.

Lemma inside_dims a b i j :
  width a = width b -> height a = height b -> inside a i j = inside b i j.
Proof. intros Hw Hh. unfold inside. rewrite Hw, Hh. reflexivity. Qed.

Lemma same_pixels_refl a : same_pixels a a.
Proof. unfold same_pixels. auto. Qed.

Lemma alpha_of_with_alpha f p :
  (forall a, f a = 0) -> alpha_of (with_alpha f p) = 0.
Proof.
  intros H. destruct p as [|r [|g [|b [|a [|x p]]]]]; cbn; auto.
Qed.

Section OpacityZero.
Variable lib : Library.

Lemma add_text_opacity_zero image cfg w c' :
  mode image = "RGBA" -> mant (opacity cfg) = 0 ->
  add_text_watermark lib image cfg = (Some w, c') ->
  same_pixels w image.
Proof.
  intros Hm Ho H.
  unfold add_text_watermark, bind, config, or_raise, ret in H.
  rewrite (fill_alpha_zero _ Ho), Hm in H. cbn [String.eqb Ascii.eqb Bool.eqb negb] in H.
  repeat destruct_inner H. injection H as <- _.
  unfold same_pixels. cbn [mode width height getpixel alpha_composite draw_text new].
  repeat split. symmetry; exact Hm.
Qed.

Lemma add_image_opacity_zero image cfg w c' :
  mode image = "RGBA" -> mant (opacity cfg) = 0 -> eight_bit image ->
  add_image_watermark lib image cfg = (Some w, c') ->
  same_pixels w image.
Proof.
  intros Hm Ho H8 H.
  unfold add_image_watermark, try_except, bind, config, or_raise, ret in H.
  rewrite (ltb_zero_one _ Ho), Hm in H. cbn [String.eqb Ascii.eqb Bool.eqb negb] in H.
  repeat destruct_inner H; injection H as <- _; try apply same_pixels_refl.
  all: unfold same_pixels;
    cbn [mode width height getpixel paste_masked paste new enhance_alpha];
    (split; [symmetry; exact Hm|]); (split; [reflexivity|]);
    (split; [reflexivity|]);
    intros px py Hin;
    pose proof (H8 px py Hin) as Hb;
    unfold inside in Hin |- *; cbn [width height paste new enhance_alpha];
    rewrite !Z.sub_0_r, !Hin; cbn [andb];
    match goal with
    | |- (if ?b then _ else _) = _ => destruct b; [|reflexivity]
    end;
    rewrite alpha_of_with_alpha by (intros; rewrite Ho; reflexivity);
    apply blend_bands_0, Hb.
Qed.
End OpacityZero.

Lemma working_copy_rgb lib src :
  mode src = "RGB" ->
  width (working_copy lib src) = width src /\
  height (working_copy lib src) = height src /\
  forall i j r g b, getpixel src i j = [r; g; b] ->
                    getpixel (working_copy lib src) i j = [r; g; b; 255].
Proof.
  intros Hm. unfold working_copy, convert. rewrite Hm.
  cbn [String.eqb Ascii.eqb Bool.eqb negb width height getpixel mode andb].
  repeat split. intros i j r g b ->. reflexivity.
Qed.

Lemma restore_rgb_pixels lib src w :
  mode src = "RGB" -> rgb_bytes src ->
  same_pixels w (working_copy lib src) ->
  same_pixels (restore_mode lib "RGB" w) src.
Proof.
  intros Hm Hrgb (Hwm & Hww & Hwh & Hpx).
  destruct (working_copy_rgb lib src Hm) as (Ew & Eh & Epx).
  rewrite Ew in Hww. rewrite Eh in Hwh.
  unfold restore_mode. cbn [String.eqb Ascii.eqb Bool.eqb negb].
  unfold same_pixels. cbn [mode width height getpixel new].
  split; [symmetry; exact Hm|]. split; [exact Hww|]. split; [exact Hwh|].
  intros i j Hin.
  assert (Hin' : inside (working_copy lib src) i j = true).
  { rewrite (inside_dims _ src) by assumption. exact Hin. }
  specialize (Hpx i j Hin').
  destruct (Hrgb i j Hin) as (r & g & b & E & Hr & Hg & Hb).
  rewrite (Epx i j r g b E) in Hpx.
  unfold inside in Hin |- *. cbn [width height new]. rewrite Hww, Hwh, !Hin.
  cbn [andb]. rewrite Hpx, E.
  cbn [alpha_of firstn blend_bands].
  rewrite !blend8_255 by assumption. reflexivity.
Qed.

(** C3.  When the opacity is 0 and a text or an image watermark is
    configured, the output of [process_image] is the conversion back to the
    mode of the file of an image that is pixel-identical to the RGBA working
    copy of the file: the drawn text layer composites to no change, and the
    paste of the watermark with its alpha scaled to 0 leaves every pixel of
    the source (8-bit bands) as it was.  For a file in mode RGBA, and for a
    file in mode RGB, the output is pixel-identical to the file itself. *)
Theorem opacity_zero_changes_nothing (lib : Library) (path : string)
        (cfg : Config) (src out : Image) (c' : Config) :
  open_file lib path = Some src ->
  mant (opacity cfg) = 0 ->
  eight_bit (working_copy lib src) ->
  truthy (text cfg) || truthy (image_path cfg) = true ->
  process_image lib path cfg = (Some (Some out), c') ->
  (exists w, same_pixels w (working_copy lib src) /\
             out = restore_mode lib (mode src) w) /\
  (mode src = "RGBA" -> same_pixels out src) /\
  (mode src = "RGB" -> rgb_bytes src -> same_pixels out src).
Proof.
  intros Hopen Ho H8 Hc H.
  assert (Hw : exists w, same_pixels w (working_copy lib src) /\
                         out = restore_mode lib (mode src) w).
  { destruct (truthy (text cfg)) eqn:Ht.
    - rewrite (process_image_text _ _ _ _ Hopen Ht) in H.
      destruct (add_text_watermark lib (working_copy lib src) cfg)
        as [[w|] c1] eqn:E; [|discriminate].
      injection H as <- _. exists w. split; [|reflexivity].
      eapply add_text_opacity_zero; [apply working_copy_mode|exact Ho|exact E].
    - cbn in Hc. rewrite (process_image_image _ _ _ _ Hopen Ht Hc) in H.
      destruct (add_image_watermark lib (working_copy lib src) cfg)
        as [[w|] c1] eqn:E; [|discriminate].
      injection H as <- _. exists w. split; [|reflexivity].
      eapply add_image_opacity_zero;
        [apply working_copy_mode|exact Ho|exact H8|exact E]. }
  split; [exact Hw|]. destruct Hw as (w & Hsame & ->). split.
  - intros Hm. unfold working_copy in Hsame. rewrite Hm in *.
    cbn [String.eqb Ascii.eqb Bool.eqb negb] in Hsame.
    unfold restore_mode. cbn [String.eqb Ascii.eqb Bool.eqb negb].
    exact Hsame.
  - intros Hm Hrgb. rewrite Hm. apply restore_rgb_pixels; assumption.
Qed.

Lemma opacity_zero_changes_nothing_witness :
  match process_image photos "input/photo.jpg" (with_opacity defaults (mk 0 0)) with
  | (Some (Some out), _) => same_pixels out (plain "RGB" 100 80 [10; 20; 30])
  | _ => False
  end.
Proof.
  destruct (process_image photos "input/photo.jpg" (with_opacity defaults (mk 0 0)))
    as [[[out|]|] c'] eqn:E; try (vm_compute in E; discriminate E).
  apply (opacity_zero_changes_nothing photos "input/photo.jpg"
           (with_opacity defaults (mk 0 0)) (plain "RGB" 100 80 [10; 20; 30])
           out c' eq_refl eq_refl).
  - intros i j _. cbn. repeat constructor; lia.
  - reflexivity.
  - exact E.
  - reflexivity.
  - intros i j _. exists 10, 20, 30. cbn. repeat split; lia.
Defined.

(* ================================================================== *)
(** ** A watermark file that cannot be read *)
(* ================================================================== *)

Section MissingAsset.
Variables (lib : Library) (out : Stdout) (cfg : Config) (p : string).
Hypothesis Htext : truthy (text cfg) = false.
Hypothesis Hpath : image_path cfg = Some p.
Hypothesis Hp : p <> "".
Hypothesis Hmissing : open_file lib p = None.





Hypothesis Hsaved : forall f, encodes out (saved_message f) = true.
Hypothesis Herror : encodes out error_message = true.


End MissingAsset.



(* ================================================================== *)
(** ** The size the watermark image is resized to *)
(* ================================================================== *)

Section AspectRatio.
Variables w h : Z.
Hypothesis Hw : 0 < w < 2 ^ 24.
Hypothesis Hh : 0 < h < 2 ^ 24.

(** [w / h] as a double: a mantissa [ma] at the scale [2 ^ ka]. *)
Lemma aspect_ratio_shape :
  exists ka ma,
    0 < ka <= 1074 /\
    int_truediv w h = Some (mk ma (- ka)) /\
    ma = rne (w * 2 ^ ka) h /\
    2 ^ 52 * h <= w * 2 ^ ka < 2 ^ 53 * h /\
    2 ^ 52 <= ma <= 2 ^ 53 /\
    ltb c1_0 (mk ma (- ka)) = (2 ^ ka <? ma).
Proof.
  unfold int_truediv.
  destruct (Z.eqb_spec h 0) as [|_]; [lia|].
  destruct (Z.ltb_spec 0 h) as [_|]; [|lia].
  rewrite round_q_pos by lia.
  destruct (round_pos_small w h) as (ka & Hka & E & Hb); try lia.
  exists ka, (rne (w * 2 ^ ka) h).
  split; [exact Hka|]. split; [now rewrite E|]. split; [reflexivity|].
  split; [exact Hb|]. split.
  - split; [apply rne_ge_int; lia|apply rne_le_int; lia].
  - unfold ltb, c1_0. cbn [mant expo].
    replace (Z.min 0 (- ka)) with (- ka) by lia.
    replace (0 - - ka) with ka by lia. replace (- ka - - ka) with 0 by lia.
    rewrite Z.mul_1_l, Z.mul_1_r. reflexivity.
Qed.

Lemma wider_iff ka :
  0 < ka -> 2 ^ 52 * h <= w * 2 ^ ka < 2 ^ 53 * h ->
  (2 ^ ka <? rne (w * 2 ^ ka) h) = (h <? w).
Proof.
  intros Hka Hb. pose proof (pow2_gt0 ka ltac:(lia)) as HA.
  set (A := 2 ^ ka) in *. clearbody A.
  destruct (Z.ltb_spec h w) as [Hlt|Hge].
  - apply Z.ltb_lt.
    assert (h <= A) by nia.
    assert (A + 1 <= rne (w * A) h); [|lia].
    apply rne_ge_int; nia.
  - apply Z.ltb_ge. apply rne_le_int; nia.
Qed.
End AspectRatio.

Lemma div_between m T K : 0 < T -> (K - 1) * T <= m < (K + 1) * T -> K - 1 <= m / T <= K.
Proof.
  intros HT [H1 H2]. split.
  - apply Z.div_le_lower_bound; lia.
  - assert (m / T < K + 1); [|lia]. apply Z.div_lt_upper_bound; lia.
Qed.

(** (K - 1) * ma <= s * A, for ma within 1/2 of w * A / h and K <= s * h / w *)
Lemma wide_lower s w h A ma K :
  0 < h -> 0 < w -> 0 <= ma -> 0 <= s * A -> 0 <= K ->
  K * w <= s * h ->
  2 * (h * ma) <= 2 * (w * A) + h ->
  (K - 1) * h <= 2 * (w * A) ->
  (K - 1) * ma <= s * A.
Proof.
  intros Hh Hw Hma HsA HK HKw Hr Hsmall.
  destruct (Z.eq_dec K 0) as [->|HK0]; [lia|].
  assert (H1 : (K - 1) * (2 * (h * ma)) <= (K - 1) * (2 * (w * A) + h))
    by (apply Z.mul_le_mono_nonneg_l; lia).
  assert (H2 : (K - 1) * w * A <= (s * h - w) * A).
  { apply Z.mul_le_mono_nonneg_r; [|lia].
    destruct (Z.le_gt_cases 0 A); [assumption|]. nia. }
  apply (Z.mul_le_mono_pos_l _ _ (2 * h)); [lia|].
  replace (2 * h * ((K - 1) * ma)) with ((K - 1) * (2 * (h * ma))) by ring.
  replace ((K - 1) * (2 * (w * A) + h))
    with (2 * ((K - 1) * w * A) + (K - 1) * h) in H1 by ring.
  replace ((s * h - w) * A) with (h * (s * A) - w * A) in H2 by ring.
  replace (2 * h * (s * A)) with (2 * (h * (s * A))) by ring.
  lia.
Qed.

(** s * A * T <= ((K + 1) * T - 1) * ma *)
Lemma wide_upper s w h A T ma K :
  0 < h -> 0 < w -> 0 < A -> 0 < T -> 0 <= K -> 0 <= ma ->
  s * h + 1 <= (K + 1) * w ->
  2 * (w * A) - h <= 2 * (h * ma) ->
  2 * w <= T ->
  h * (K + 1) <= A ->
  s * A * T <= ((K + 1) * T - 1) * ma.
Proof.
  intros Hh Hw HA HT HK Hma HKw Hr HT2 HA2.
  set (U := (K + 1) * T - 1).
  assert (HU : 0 <= U) by (unfold U; nia).
  assert (H1 : (2 * (w * A) - h) * U <= 2 * (h * ma) * U)
    by (apply Z.mul_le_mono_nonneg_r; lia).
  assert (H2 : (s * h + 1) * (A * T) <= (K + 1) * w * (A * T)).
  { apply Z.mul_le_mono_nonneg_r; [nia|lia]. }
  assert (H3 : 2 * w * A <= T * A) by (apply Z.mul_le_mono_nonneg_r; lia).
  assert (H4 : h * (K + 1) * T <= A * T) by (apply Z.mul_le_mono_nonneg_r; lia).
  apply (Z.mul_le_mono_pos_l _ _ (2 * h)); [lia|].
  replace (2 * h * (U * ma)) with (2 * (h * ma) * U) by ring.
  eapply Z.le_trans; [|exact H1].
  unfold U.
  replace ((2 * (w * A) - h) * ((K + 1) * T - 1))
    with (2 * ((K + 1) * w * (A * T)) - 2 * w * A - h * (K + 1) * T + h) by ring.
  replace (2 * h * (s * A * T)) with (2 * ((s * h + 1) * (A * T)) - 2 * (A * T)) by ring.
  replace (T * A) with (A * T) in H3 by ring.
  lia.
Qed.

(** (K - 1) * A <= s * ma, tall case *)
Lemma tall_lower s w h A ma K :
  0 < h -> 0 < w -> 0 <= ma -> 0 < A -> 0 <= K -> 0 <= s ->
  K * h <= s * w ->
  2 * (w * A) - h <= 2 * (h * ma) ->
  s <= 2 * A ->
  (K - 1) * A <= s * ma.
Proof.
  intros Hh Hw Hma HA HK Hs HKh Hr Hsmall.
  assert (H1 : s * (2 * (w * A) - h) <= s * (2 * (h * ma)))
    by (apply Z.mul_le_mono_nonneg_l; lia).
  assert (H2 : K * h * A <= s * w * A) by (apply Z.mul_le_mono_nonneg_r; lia).
  assert (H3 : s * h <= 2 * A * h) by (apply Z.mul_le_mono_nonneg_r; lia).
  apply (Z.mul_le_mono_pos_l _ _ (2 * h)); [lia|].
  replace (2 * h * (s * ma)) with (s * (2 * (h * ma))) by ring.
  eapply Z.le_trans; [|exact H1].
  replace (s * (2 * (w * A) - h)) with (2 * (s * w * A) - s * h) by ring.
  replace (2 * h * ((K - 1) * A)) with (2 * (K * h * A) - 2 * A * h) by ring.
  lia.
Qed.

(** s * ma * T <= ((K + 1) * T - 1) * A, tall case *)
Lemma tall_upper s w h A T ma K :
  0 < h -> 0 < w -> 0 < A -> 0 < T -> 0 <= K -> 0 <= ma -> 0 <= s ->
  s * w + 1 <= (K + 1) * h ->
  2 * (h * ma) <= 2 * (w * A) + h ->
  2 * h <= T ->
  s * h <= A ->
  s * ma * T <= ((K + 1) * T - 1) * A.
Proof.
  intros Hh Hw HA HT HK Hma Hs HKh Hr HT2 HA2.
  assert (H1 : s * T * (2 * (h * ma)) <= s * T * (2 * (w * A) + h)).
  { apply Z.mul_le_mono_nonneg_l; [nia|lia]. }
  assert (H2 : (s * w + 1) * (A * T) <= (K + 1) * h * (A * T)).
  { apply Z.mul_le_mono_nonneg_r; [nia|lia]. }
  assert (H3 : 2 * h * A <= T * A) by (apply Z.mul_le_mono_nonneg_r; lia).
  assert (H4 : s * h * T <= A * T) by (apply Z.mul_le_mono_nonneg_r; lia).
  apply (Z.mul_le_mono_pos_l _ _ (2 * h)); [lia|].
  replace (2 * h * (s * ma * T)) with (s * T * (2 * (h * ma))) by ring.
  eapply Z.le_trans; [exact H1|].
  replace (s * T * (2 * (w * A) + h))
    with (2 * ((s * w + 1) * (A * T)) - 2 * (A * T) + s * h * T) by ring.
  replace (2 * h * (((K + 1) * T - 1) * A))
    with (2 * ((K + 1) * h * (A * T)) - 2 * h * A) by ring.
  replace (T * A) with (A * T) in H3 by ring.
  lia.
Qed.

Lemma above_underflow p q : 1 <= p -> q <= 2 ^ 100 -> q <= p * 2 ^ 1022.
Proof.
  intros Hp Hq. pose proof (pow2_le_mono 100 1022 ltac:(lia)) as H.
  pose proof (pow2_gt0 1022 ltac:(lia)) as H0.
  set (B := 2 ^ 1022) in *. set (C := 2 ^ 100) in *. clearbody B C.
  assert (1 * B <= p * B) by (apply Z.mul_le_mono_nonneg_r; lia). lia.
Qed.

Lemma mul_lt_2_48 a b : 0 <= a < 2 ^ 24 -> 0 <= b < 2 ^ 24 -> a * b < 2 ^ 48.
Proof. intros Ha Hb. change (2 ^ 48) with (2 ^ 24 * 2 ^ 24). nia. Qed.

Lemma big_cofactor s T c : 0 < s < 2 ^ 24 -> 0 < T -> 2 ^ 52 <= s * T -> 0 <= c < 2 ^ 24 -> 2 * c <= T.
Proof.
  intros Hs HT H Hc.
  destruct (Z.le_gt_cases (2 ^ 28) T) as [|Hlt]; [lia|exfalso].
  assert (s * T < 2 ^ 24 * 2 ^ 28) by nia.
  change (2 ^ 24 * 2 ^ 28) with (2 ^ 52) in *. lia.
Qed.

Section ShorterSide.
Variables s w h ka : Z.
Hypothesis Hw : 0 < w < 2 ^ 24.
Hypothesis Hh : 0 < h < 2 ^ 24.
Hypothesis Hs : 0 < s < 2 ^ 24.
Hypothesis Hka : 0 < ka.
Hypothesis Hb : 2 ^ 52 * h <= w * 2 ^ ka < 2 ^ 53 * h.

Let A := 2 ^ ka.
Let ma := rne (w * A) h.

Lemma scale_positive : 0 < A.
Proof. apply pow2_gt0. lia. Qed.

Lemma scale_large : 2 ^ 28 * h < A.
Proof.
  pose proof scale_positive. fold A in Hb.
  destruct (Z.lt_ge_cases (2 ^ 28 * h) A) as [|Hge]; [assumption|exfalso].
  assert (w * A <= w * (2 ^ 28 * h)) by (apply Z.mul_le_mono_nonneg_l; lia).
  assert (w * (2 ^ 28 * h) < 2 ^ 24 * (2 ^ 28 * h))
    by (apply Z.mul_lt_mono_pos_r; lia).
  change (2 ^ 52) with (2 ^ 24 * 2 ^ 28) in Hb. lia.
Qed.

Lemma shorter_side_wide :
  h < w ->
  exists q, fdiv (of_int s) (mk ma (- ka)) = Some q /\
            s * h / w - 1 <= to_int q <= s * h / w.
Proof.
  intros Hlt.
  pose proof scale_positive as HA. pose proof scale_large as HAh. fold A in Hb.
  assert (Hma : A + 1 <= ma <= 2 ^ 53).
  { split; [apply rne_ge_int; nia|apply rne_le_int; lia]. }
  pose proof (rne_bounds (w * A) h ltac:(lia)) as Hr. fold ma in Hr.
  unfold fdiv. cbn [mant expo].
  destruct (Z.eqb_spec ma 0) as [|_]; [lia|].
  rewrite of_int_small by lia. cbn [mant expo].
  unfold scale2. destruct (Z.leb_spec 0 (- ka - 0)) as [|_]; [lia|].
  replace (- (- ka - 0)) with ka by lia. fold A.
  destruct (Z.ltb_spec 0 ma) as [_|]; [|lia].
  assert (HsA1 : 1 <= s * A) by nia.
  rewrite round_q_pos by lia.
  assert (HsA : s * A < ma * 2 ^ 52) by nia.
  destruct (round_pos_small (s * A) ma) as (kx & Hkx & -> & Hx);
    [lia|lia|exact HsA|apply above_underflow; lia|].
  eexists. split; [reflexivity|].
  pose proof (pow2_gt0 kx ltac:(lia)) as HT.
  assert (Hm0 : 0 <= rne (s * A * 2 ^ kx) ma) by (apply rne_ge_int; nia).
  rewrite to_int_neg_expo by lia.
  set (T := 2 ^ kx) in *. clearbody T.
  pose proof (Z.div_mod (s * h) w ltac:(lia)) as Hd.
  pose proof (Z.mod_pos_bound (s * h) w ltac:(lia)) as Hmod.
  assert (HK0 : 0 <= s * h / w) by (apply Z.div_pos; nia).
  assert (HKs : s * h / w < s).
  { apply Z.div_lt_upper_bound; [lia|]. rewrite (Z.mul_comm w s).
    apply Z.mul_lt_mono_pos_l; lia. }
  set (K := s * h / w) in *. set (r := (s * h) mod w) in *. clearbody K r.
  assert (HsT : 2 ^ 52 <= s * T).
  { apply (Z.mul_le_mono_pos_r _ _ A); [lia|].
    assert (2 ^ 52 * A <= 2 ^ 52 * ma) by (apply Z.mul_le_mono_nonneg_l; lia).
    replace (s * T * A) with (s * A * T) by ring. lia. }
  apply div_between; [lia|]. split.
  - apply rne_ge_int; [lia|].
    replace ((K - 1) * T * ma) with ((K - 1) * ma * T) by ring.
    apply Z.mul_le_mono_nonneg_r; [lia|].
    apply (wide_lower s w h A ma K); try lia.
    pose proof (mul_lt_2_48 K h ltac:(lia) ltac:(lia)).
    change (2 ^ 48) with 281474976710656 in *.
    change (2 ^ 52) with 4503599627370496 in *. lia.
  - assert (rne (s * A * T) ma <= (K + 1) * T - 1); [|lia].
    apply rne_le_int; [lia|].
    apply (wide_upper s w h A T ma K); try lia.
    + apply (big_cofactor s T w); lia.
    + assert (h * (K + 1) <= h * 2 ^ 24) by (apply Z.mul_le_mono_nonneg_l; lia).
      change (2 ^ 24) with 16777216 in *.
      change (2 ^ 28) with 268435456 in *. lia.
Qed.

Lemma shorter_side_tall :
  w <= h ->
  s * w / h - 1 <= to_int (fmul (of_int s) (mk ma (- ka))) <= s * w / h.
Proof.
  intros Hle.
  pose proof scale_positive as HA. pose proof scale_large as HAh. fold A in Hb.
  assert (Hma : 2 ^ 52 <= ma <= A).
  { split; [apply rne_ge_int; lia|apply rne_le_int; [lia|]].
    rewrite (Z.mul_comm w A). apply Z.mul_le_mono_nonneg_l; lia. }
  pose proof (rne_bounds (w * A) h ltac:(lia)) as Hr. fold ma in Hr.
  assert (HA77 : A <= 2 ^ 100).
  { assert (1 * A <= w * A) by (apply Z.mul_le_mono_nonneg_r; lia).
    change (2 ^ 100) with (2 ^ 53 * 2 ^ 47).
    change (2 ^ 24) with 16777216 in *. change (2 ^ 47) with 140737488355328.
    change (2 ^ 53) with 9007199254740992 in *. lia. }
  rewrite of_int_small by lia.
  rewrite fmul_int_const by lia. rewrite Z.opp_involutive. fold A.
  assert (Hsm1 : 1 <= s * ma) by nia.
  rewrite round_q_pos by lia.
  assert (Hsm : s * ma < A * 2 ^ 52).
  { assert (s * ma <= s * A) by (apply Z.mul_le_mono_nonneg_l; lia).
    assert (s * A < 2 ^ 52 * A) by (apply Z.mul_lt_mono_pos_r; lia). lia. }
  destruct (round_pos_small (s * ma) A) as (kx & Hkx & -> & Hx);
    [lia|lia|exact Hsm|apply above_underflow; lia|].
  pose proof (pow2_gt0 kx ltac:(lia)) as HT.
  assert (Hm0 : 0 <= rne (s * ma * 2 ^ kx) A) by (apply rne_ge_int; nia).
  rewrite to_int_neg_expo by lia.
  set (T := 2 ^ kx) in *. clearbody T.
  pose proof (Z.div_mod (s * w) h ltac:(lia)) as Hd.
  pose proof (Z.mod_pos_bound (s * w) h ltac:(lia)) as Hmod.
  assert (HK0 : 0 <= s * w / h) by (apply Z.div_pos; nia).
  assert (HKs : s * w / h <= s).
  { apply Z.div_le_upper_bound; [lia|]. rewrite (Z.mul_comm h s).
    apply Z.mul_le_mono_nonneg_l; lia. }
  set (K := s * w / h) in *. set (r := (s * w) mod h) in *. clearbody K r.
  assert (HsT : 2 ^ 52 <= s * T).
  { apply (Z.mul_le_mono_pos_r _ _ A); [lia|].
    assert (s * ma * T <= s * A * T).
    { apply Z.mul_le_mono_nonneg_r; [lia|].
      apply Z.mul_le_mono_nonneg_l; lia. }
    replace (s * T * A) with (s * A * T) by ring. lia. }
  apply div_between; [lia|]. split.
  - apply rne_ge_int; [lia|].
    replace ((K - 1) * T * A) with ((K - 1) * A * T) by ring.
    apply Z.mul_le_mono_nonneg_r; [lia|].
    apply (tall_lower s w h A ma K); lia.
  - assert (rne (s * ma * T) A <= (K + 1) * T - 1); [|lia].
    apply rne_le_int; [lia|].
    apply (tall_upper s w h A T ma K); try lia.
    + apply (big_cofactor s T h); lia.
    + assert (s * h <= 2 ^ 24 * h) by (apply Z.mul_le_mono_nonneg_r; lia).
      change (2 ^ 24) with 16777216 in *.
      change (2 ^ 28) with 268435456 in *. lia.
Qed.
End ShorterSide.

(* ================================================================== *)
(** ** More on the resized watermark *)
(* ================================================================== *)

Lemma to_int_round_pos_nonneg p q : 0 < p -> 0 < q -> 0 <= to_int (round_pos p q).
Proof.
  intros Hp Hq. unfold round_pos.
  set (e := Z.max (binade p q - (prec - 1)) emin). clearbody e.
  unfold scale2. destruct (Z.leb_spec 0 e) as [He|He].
  - pose proof (pow2_gt0 e He) as HT.
    assert (0 <= rne p (q * 2 ^ e)) by (apply rne_ge_int; nia).
    unfold to_int. cbn [mant expo]. destruct (Z.leb_spec 0 e); [nia|lia].
  - pose proof (pow2_gt0 (- e) ltac:(lia)) as HT.
    assert (0 <= rne (p * 2 ^ (- e)) q) by (apply rne_ge_int; nia).
    unfold to_int. cbn [mant expo]. destruct (Z.leb_spec 0 e); [lia|].
    apply Z.quot_pos; lia.
Qed.

Lemma to_int_round_q_nonneg p q : 0 <= p -> 0 < q -> 0 <= to_int (round_q p q).
Proof.
  intros Hp Hq. destruct (Z.eq_dec p 0) as [->|N]; [cbn; lia|].
  rewrite round_q_pos by lia. apply to_int_round_pos_nonneg; lia.
Qed.

Lemma fmul_nonneg a b : 0 <= mant a -> 0 <= mant b -> 0 <= to_int (fmul a b).
Proof.
  intros Ha Hb. unfold fmul, scale2.
  destruct (Z.leb_spec 0 (- (expo a + expo b))).
  - apply to_int_round_q_nonneg; [nia|].
    pose proof (pow2_gt0 (- (expo a + expo b)) ltac:(lia)). lia.
  - pose proof (pow2_gt0 (- - (expo a + expo b)) ltac:(lia)).
    apply to_int_round_q_nonneg; nia.
Qed.

Lemma fdiv_nonneg a b q :
  0 <= mant a -> 0 < mant b -> fdiv a b = Some q -> 0 <= to_int q.
Proof.
  intros Ha Hb. unfold fdiv, scale2.
  destruct (Z.eqb_spec (mant b) 0); [lia|].
  destruct (Z.leb_spec 0 (expo b - expo a)).
  - pose proof (pow2_gt0 (expo b - expo a) ltac:(lia)).
    destruct (Z.ltb_spec 0 (mant b * 2 ^ (expo b - expo a))); [|nia].
    intros Hq. injection Hq as <-. apply to_int_round_q_nonneg; lia.
  - pose proof (pow2_gt0 (- (expo b - expo a)) ltac:(lia)).
    destruct (Z.ltb_spec 0 (mant b)); [|lia].
    intros Hq. injection Hq as <-. apply to_int_round_q_nonneg; nia.
Qed.

(** The size a watermark of [w] by [h] pixels is resized to: the longer side
    becomes the base size [s]; the shorter side is the proportional value
    truncated, never negative, at most [floor(s * shorter / longer)] and at
    most one below it; it is not clamped, and is 0 when
    [s * shorter < longer]. *)
Theorem new_size_truncates (s w h : Z) :
  0 < w < 2 ^ 24 -> 0 < h < 2 ^ 24 -> 0 <= s < 2 ^ 24 ->
  exists t,
    new_size s w h = Some (if h <? w then (s, t) else (t, s)) /\
    0 <= t /\
    (if h <? w then s * h / w else s * w / h) - 1 <= t /\
    t <= (if h <? w then s * h / w else s * w / h) /\
    t <= s /\
    ((if h <? w then s * h <? w else s * w <? h) = true -> t = 0).
Proof.
  intros Hw Hh Hs. unfold new_size.
  destruct (aspect_ratio_shape w h Hw Hh) as (ka & ma & Hka & -> & -> & Hb & Hma & ->).
  rewrite (wider_iff w h Hw Hh ka) by lia.
  assert (Core : exists t,
    (if h <? w
     then match fdiv (of_int s) (mk (rne (w * 2 ^ ka) h) (- ka)) with
          | Some q => Some (s, to_int q)
          | None => None
          end
     else Some (to_int (fmul (of_int s) (mk (rne (w * 2 ^ ka) h) (- ka))), s))
    = Some (if h <? w then (s, t) else (t, s)) /\
    0 <= t /\
    (if h <? w then s * h / w else s * w / h) - 1 <= t /\
    t <= (if h <? w then s * h / w else s * w / h)).
  { destruct (Z.eq_dec s 0) as [->|Hs0].
    - destruct (h <? w).
      + exists 0. change (of_int 0) with (mk 0 0). unfold fdiv. cbn [mant expo].
        destruct (Z.eqb_spec (rne (w * 2 ^ ka) h) 0) as [|_]; [lia|].
        unfold scale2. destruct (0 <=? - ka - 0); cbn [Z.mul Z.opp];
          match goal with
          | |- context [0 <? ?q] => destruct (0 <? q)
          end; cbn; (split; [reflexivity|lia]).
      + exists 0. change (of_int 0) with (mk 0 0).
        unfold fmul, scale2. cbn [mant expo Z.mul].
        destruct (0 <=? _); cbn; (split; [reflexivity|lia]).
    - destruct (Z.ltb_spec h w) as [Hlt|Hge].
      + destruct (shorter_side_wide s w h ka Hw Hh ltac:(lia) ltac:(lia) Hb Hlt)
          as (q & E & Hq).
        rewrite E. exists (to_int q). split; [reflexivity|].
        split; [|lia].
        apply (fdiv_nonneg (of_int s) (mk (rne (w * 2 ^ ka) h) (- ka)) q);
          [rewrite of_int_small by lia; cbn; lia|cbn; lia|exact E].
      + pose proof (shorter_side_tall s w h ka Hw Hh ltac:(lia) ltac:(lia) Hb Hge) as Hq.
        eexists. split; [reflexivity|]. split; [|lia].
        apply fmul_nonneg; [rewrite of_int_small by lia; cbn; lia|cbn; lia]. }
  destruct Core as (t & E & H0 & Hlo & Hhi). exists t.
  split; [exact E|]. split; [exact H0|]. split; [exact Hlo|]. split; [exact Hhi|].
  destruct (Z.ltb_spec h w) as [Hlt|Hge].
  - assert (s * h / w <= s).
    { apply Z.div_le_upper_bound; [lia|]. rewrite (Z.mul_comm w s).
      apply Z.mul_le_mono_nonneg_l; lia. }
    split; [lia|]. intros Hz. apply Z.ltb_lt in Hz.
    rewrite Z.div_small in Hhi by nia. lia.
  - assert (s * w / h <= s).
    { apply Z.div_le_upper_bound; [lia|]. rewrite (Z.mul_comm h s).
      apply Z.mul_le_mono_nonneg_l; lia. }
    split; [lia|]. intros Hz. apply Z.ltb_lt in Hz.
    rewrite Z.div_small in Hhi by nia. lia.
Qed.

Lemma new_size_truncates_witness :
  exists t,
    new_size 100 300 200 = Some (if 200 <? 300 then (100, t) else (t, 100)) /\
    0 <= t /\
    (if 200 <? 300 then 100 * 200 / 300 else 100 * 300 / 200) - 1 <= t /\
    t <= (if 200 <? 300 then 100 * 200 / 300 else 100 * 300 / 200) /\
    t <= 100 /\
    ((if 200 <? 300 then 100 * 200 <? 300 else 100 * 300 <? 200) = true -> t = 0).
Proof. apply (new_size_truncates 100 300 200); lia. Defined.

(** A square watermark is resized to [s] by [s]. *)
Theorem new_size_square (s w : Z) :
  0 < w < 2 ^ 24 -> 0 <= s < 2 ^ 24 -> new_size s w w = Some (s, s).
Proof.
  intros Hw Hs. unfold new_size.
  destruct (aspect_ratio_shape w w Hw Hw) as (ka & ma & Hka & -> & -> & Hb & Hma & ->).
  rewrite (wider_iff w w Hw Hw ka) by lia.
  rewrite Z.ltb_irrefl.
  pose proof (pow2_gt0 ka ltac:(lia)) as HA.
  rewrite (Z.mul_comm w (2 ^ ka)), rne_exact by lia.
  destruct (Z.eq_dec s 0) as [->|Hs0].
  { change (of_int 0) with (mk 0 0). unfold fmul, scale2. cbn [mant expo Z.mul].
    destruct (0 <=? _); reflexivity. }
  rewrite of_int_small by lia.
  rewrite fmul_int_const by lia. rewrite Z.opp_involutive.
  set (A := 2 ^ ka) in *.
  assert (HsA : 1 <= s * A) by nia.
  rewrite round_q_pos by lia.
  assert (HA100 : A <= 2 ^ 100).
  { rewrite (Z.mul_comm w A) in Hb.
    assert (w * A < w * 2 ^ 53) by lia.
    assert (A < 2 ^ 53) by (apply (Z.mul_lt_mono_pos_l w); lia).
    pose proof (pow2_le_mono 53 100 ltac:(lia)). lia. }
  destruct (round_pos_small (s * A) A) as (kx & Hkx & -> & Hx);
    [lia|lia| |apply above_underflow; lia|].
  { assert (s * A < 2 ^ 52 * A) by (apply Z.mul_lt_mono_pos_r; lia). lia. }
  pose proof (pow2_gt0 kx ltac:(lia)) as HT.
  replace (s * A * 2 ^ kx) with (s * 2 ^ kx * A) by ring.
  rewrite rne_exact by lia.
  rewrite to_int_neg_expo by nia.
  rewrite Z.div_mul by lia. reflexivity.
Qed.

Lemma new_size_square_witness : new_size 50 640 640 = Some (50, 50).
Proof. apply (new_size_square 50 640); lia. Defined.

(* ================================================================== *)
(** ** More on the position and the size *)
(* ================================================================== *)

(** For image sides below 2^31 and watermark sizes of magnitude below 2^31
    the position calculation never raises, whatever the configured position
    is: the lookup in POSITIONS cannot miss, because an unrecognized name has
    been replaced before, and the products stay far inside the range of the
    floats. *)
Theorem calculate_position_never_raises (cfg : Config) (image : Image) (w h : Z) :
  0 <= width image < 2 ^ 31 -> 0 <= height image < 2 ^ 31 ->
  Z.abs w < 2 ^ 31 -> Z.abs h < 2 ^ 31 ->
  exists xy, fst (_calculate_position image w h cfg) = Some xy.
Proof.
  intros _ _ _ _.
  unfold _calculate_position, bind, config, or_raise, ret, assign_position.
  destruct (dict_mem POSITIONS (position cfg)) eqn:E; cbn [negb].
  - destruct (positions_item_mem _ E) as ([[[xf yf] ?] ?] & ->).
    eexists. reflexivity.
  - cbn [set_position position]. eexists. reflexivity.
Qed.

Lemma calculate_position_never_raises_witness :
  exists xy,
    fst (_calculate_position (plain "RGB" 100 80 [0; 0; 0]) 40 12
                             (with_position defaults "middle")) = Some xy.
Proof.
  apply (calculate_position_never_raises (with_position defaults "middle")
           (plain "RGB" 100 80 [0; 0; 0]) 40 12); cbn; lia.
Defined.

(** A second position calculation returns what the first returned and leaves
    the configuration of the first. *)
Theorem calculate_position_twice (cfg : Config) (image : Image) (w h : Z) :
  _calculate_position image w h (snd (_calculate_position image w h cfg))
  = _calculate_position image w h cfg.
Proof.
  rewrite calculate_position_config.
  destruct (dict_mem POSITIONS (position cfg)) eqn:E; [reflexivity|].
  unfold _calculate_position, bind, config, or_raise, ret, assign_position.
  rewrite E. reflexivity.
Qed.

(** The center anchor puts the watermark box within one pixel of the exact
    center. *)
Theorem center_within_one_pixel (cfg : Config) (image : Image) (w h : Z) :
  0 <= width image < 2 ^ 31 -> 0 <= height image < 2 ^ 31 ->
  Z.abs w < 2 ^ 31 -> Z.abs h < 2 ^ 31 ->
  position cfg = "center" ->
  exists x y,
    _calculate_position image w h cfg = (Some (x, y), cfg) /\
    Z.abs (2 * x - (width image - w)) <= 1 /\
    Z.abs (2 * y - (height image - h)) <= 1.
Proof.
  intros HW HH Hw Hh Hp.
  rewrite calculate_position_eq by lia. rewrite Hp.
  eexists. eexists. split; [reflexivity|].
  cbn [trunc_axis].
  pose proof (Z.quot_rem' (width image - w) 2) as Qw.
  pose proof (Z.quot_rem' (height image - h) 2) as Qh.
  pose proof (Z.rem_bound_abs (width image - w) 2 ltac:(lia)) as Rw.
  pose proof (Z.rem_bound_abs (height image - h) 2 ltac:(lia)) as Rh.
  lia.
Qed.

Lemma center_within_one_pixel_witness :
  exists x y,
    _calculate_position (plain "RGB" 101 80 [0; 0; 0]) 40 13
                        (with_position defaults "center")
    = (Some (x, y), with_position defaults "center") /\
    Z.abs (2 * x - (101 - 40)) <= 1 /\
    Z.abs (2 * y - (80 - 13)) <= 1.
Proof.
  apply (center_within_one_pixel (with_position defaults "center")
           (plain "RGB" 101 80 [0; 0; 0]) 40 13); cbn; first [lia | reflexivity].
Defined.

Section FontFailure.
Variables (lib : Library) (out : Stdout) (cfg : Config).
Hypothesis Htext : truthy (text cfg) = true.
Hypothesis Hfont : forall s label, rasterize lib s label = None.



End FontFailure.


(** The relative sizes are ordered: small, medium, large, and above them
    the size an unrecognized name gives; none exceeds the shorter side of
    the image. *)
Theorem relative_sizes_ordered (cfg : Config) (image : Image) (other : string) :
  0 <= width image < 2 ^ 31 -> 0 <= height image < 2 ^ 31 ->
  String.eqb other "small" || String.eqb other "medium" || String.eqb other "large"
  = false ->
  exists sm md lg ot,
    fst (_calculate_size image (with_relative_size cfg "small")) = Some sm /\
    fst (_calculate_size image (with_relative_size cfg "medium")) = Some md /\
    fst (_calculate_size image (with_relative_size cfg "large")) = Some lg /\
    fst (_calculate_size image (with_relative_size cfg other)) = Some ot /\
    0 <= sm /\ sm <= md /\ md <= lg /\ lg <= ot /\
    ot <= Z.min (width image) (height image).
Proof.
  intros HW HH Hno.
  unfold _calculate_size, bind, config, or_raise, ret, with_relative_size.
  cbn [pixel_size size fst].
  set (n := Z.min (width image) (height image)).
  assert (Hn : 0 <= n < 2 ^ 31) by (unfold n; lia).
  rewrite !size_factor_percent by exact Hn.
  do 4 eexists. repeat (split; [reflexivity|]).
  change (spec_percent "small") with 5. change (spec_percent "medium") with 10.
  change (spec_percent "large") with 15.
  assert (Ho : spec_percent other = 30).
  { unfold spec_percent.
    destruct (String.eqb other "small"), (String.eqb other "medium"),
      (String.eqb other "large"); try discriminate; reflexivity. }
  rewrite Ho. repeat split.
  - apply Z.div_pos; lia.
  - apply Z.div_le_mono; lia.
  - apply Z.div_le_mono; lia.
  - apply Z.div_le_mono; lia.
  - apply Z.div_le_upper_bound; lia.
Qed.


Lemma relative_sizes_ordered_witness :
  exists sm md lg ot,
    fst (_calculate_size (plain "RGB" 1000 800 [0; 0; 0])
                         (with_relative_size defaults "small")) = Some sm /\
    fst (_calculate_size (plain "RGB" 1000 800 [0; 0; 0])
                         (with_relative_size defaults "medium")) = Some md /\
    fst (_calculate_size (plain "RGB" 1000 800 [0; 0; 0])
                         (with_relative_size defaults "large")) = Some lg /\
    fst (_calculate_size (plain "RGB" 1000 800 [0; 0; 0])
                         (with_relative_size defaults "huge")) = Some ot /\
    0 <= sm /\ sm <= md /\ md <= lg /\ lg <= ot /\
    ot <= Z.min 1000 800.
Proof.
  apply (relative_sizes_ordered defaults (plain "RGB" 1000 800 [0; 0; 0]) "huge");
    cbn; first [lia | reflexivity].
Defined.

(* ================================================================== *)
(** ** More on the colours *)
(* ================================================================== *)

Lemma all_ascii_complete c : In c all_ascii.
Proof.
  unfold all_ascii. rewrite <- (ascii_nat_embedding c).
  apply in_map, in_seq. pose proof (nat_ascii_bounded c). lia.
Qed.

Lemma two_digits_checked :
  forallb (fun c1 => forallb (two_digits_ok c1) all_ascii) all_ascii = true.
Proof. vm_compute. reflexivity. Qed.

Lemma parse_two_hex_digits c1 c2 v1 v2 :
  Int16.digit c1 = Some v1 -> Int16.digit c2 = Some v2 ->
  Int16.parse (String (lower_ascii c1) (String (lower_ascii c2) ""))
  = Some (16 * v1 + v2).
Proof.
  intros H1 H2. pose proof two_digits_checked as H.
  rewrite forallb_forall in H. specialize (H c1 (all_ascii_complete c1)).
  rewrite forallb_forall in H. specialize (H c2 (all_ascii_complete c2)).
  unfold two_digits_ok in H. rewrite H1, H2 in H.
  destruct (Int16.parse _) as [v|]; [|discriminate].
  apply Z.eqb_eq in H. now subst.
Qed.

Lemma digit_byte c v : Int16.digit c = Some v -> 0 <= v <= 15.
Proof.
  unfold Int16.digit. set (n := Z.of_N (N_of_ascii c)). intros H.
  destruct ((48 <=? n) && (n <=? 57)) eqn:E1;
    [injection H as <-; apply andb_true_iff in E1; lia|].
  destruct ((97 <=? n) && (n <=? 102)) eqn:E2;
    [injection H as <-; apply andb_true_iff in E2; lia|].
  destruct ((65 <=? n) && (n <=? 70)) eqn:E3;
    [injection H as <-; apply andb_true_iff in E3; lia|discriminate].
Qed.

(** Every hex code resolves to the colour it spells, and a shorthand to the
    colour of the doubled digits. *)
Theorem hex_codes_resolve (c1 c2 c3 c4 c5 c6 : ascii) (v1 v2 v3 v4 v5 v6 : Z) :
  Int16.digit c1 = Some v1 -> Int16.digit c2 = Some v2 ->
  Int16.digit c3 = Some v3 -> Int16.digit c4 = Some v4 ->
  Int16.digit c5 = Some v5 -> Int16.digit c6 = Some v6 ->
  resolve_color (String "#" (String c1 (String c2 (String c3
                   (String c4 (String c5 (String c6 "")))))))
  = (16 * v1 + v2, 16 * v3 + v4, 16 * v5 + v6) /\
  resolve_color (String "#" (String c1 (String c3 (String c5 ""))))
  = (17 * v1, 17 * v3, 17 * v5) /\
  0 <= 16 * v1 + v2 <= 255.
Proof.
  intros H1 H2 H3 H4 H5 H6.
  pose proof (digit_byte _ _ H1). pose proof (digit_byte _ _ H2).
  unfold resolve_color, hex_color.
  cbn [lower String.prefix len String.length String.substring append].
  change (lower_ascii "#") with "#"%char.
  destruct (ascii_dec "#" "#") as [_|N]; [|contradiction].
  cbn -[Int16.parse lower_ascii Z.mul Z.add].
  rewrite (parse_two_hex_digits _ _ _ _ H1 H2), (parse_two_hex_digits _ _ _ _ H3 H4),
    (parse_two_hex_digits _ _ _ _ H5 H6).
  rewrite (parse_two_hex_digits _ _ _ _ H1 H1), (parse_two_hex_digits _ _ _ _ H3 H3),
    (parse_two_hex_digits _ _ _ _ H5 H5).
  split; [reflexivity|]. split; [|lia].
  f_equal; [f_equal|]; lia.
Qed.

(** A name of the table, in any letter case, resolves to its entry. *)
Theorem named_colors_any_case (s name : string) (rgb : Z * Z * Z) :
  In (name, rgb) COLORS -> lower s = name -> resolve_color s = rgb.
Proof.
  intros Hin Hl. unfold resolve_color. rewrite Hl.
  unfold COLORS in Hin. cbn [In] in Hin.
  repeat (destruct Hin as [Hin | Hin];
          [injection Hin as <- <-; reflexivity|]).
  contradiction.
Qed.

Lemma named_colors_any_case_witness : resolve_color "Orange" = (255, 165, 0).
Proof.
  apply (named_colors_any_case "Orange" "orange" (255, 165, 0)).
  - cbn. tauto.
  - reflexivity.
Defined.

Lemma hex_codes_resolve_witness :
  resolve_color "#1e90FF" = (30, 144, 255) /\
  resolve_color "#19f" = (17, 153, 255) /\
  0 <= 30 <= 255.
Proof.
  apply (hex_codes_resolve "1" "e" "9" "0" "F" "F" 1 14 9 0 15 15); reflexivity.
Defined.

(* ================================================================== *)
(** ** More on the pipeline: size and mode of the result *)
(* ================================================================== *)

Section Shapes.
Variable lib : Library.

Lemma working_copy_size image :
  width (working_copy lib image) = width image /\
  height (working_copy lib image) = height image.
Proof. unfold working_copy. destruct (negb _); split; reflexivity. Qed.

Lemma text_result_size image cfg out c' :
  add_text_watermark lib image cfg = (Some out, c') ->
  width out = width image /\ height out = height image.
Proof.
  unfold add_text_watermark, bind, config, or_raise, ret. intros H.
  repeat destruct_inner H; injection H as <- _; split; reflexivity.
Qed.

Lemma image_result_size image cfg out c' :
  add_image_watermark lib image cfg = (Some out, c') ->
  width out = width image /\ height out = height image.
Proof.
  unfold add_image_watermark, try_except, bind, config, or_raise, ret. intros H.
  repeat destruct_inner H; injection H as <- _; split; reflexivity.
Qed.

Lemma restore_mode_size m w :
  width (restore_mode lib m w) = width w /\ height (restore_mode lib m w) = height w.
Proof.
  unfold restore_mode.
  destruct (negb _); [|split; reflexivity].
  destruct (String.eqb m "RGB"); [split; reflexivity|].
  destruct (_ || _); split; reflexivity.
Qed.
End Shapes.

Lemma add_text_watermark_success lib image cfg label s tw th cover x y c1 a :
  text cfg = Some label ->
  _calculate_size image cfg = (Some s, cfg) ->
  rasterize lib s label = Some (tw, th, cover) ->
  _calculate_position image tw th cfg = (Some (x, y), c1) ->
  fill_alpha (opacity cfg) = Some a ->
  exists out, add_text_watermark lib image cfg = (Some out, c1).
Proof.
  intros Ht Hs Hr Hp Ha.
  unfold add_text_watermark, bind, config, or_raise, ret.
  rewrite Hs, Ht, Hr, Hp, Ha.
  destruct (resolve_color (text_color cfg)) as [[r g] b].
  eexists. reflexivity.
Qed.

Lemma process_image_text_success lib path cfg src w c1 :
  open_file lib path = Some src -> truthy (text cfg) = true ->
  add_text_watermark lib (working_copy lib src) cfg = (Some w, c1) ->
  process_image lib path cfg = (Some (Some (restore_mode lib (mode src) w)), c1).
Proof.
  intros Ho Ht E. rewrite (process_image_text lib path cfg src Ho Ht), E.
  reflexivity.
Qed.

(** the default text on the 100 by 80 photo of [photos] *)
Lemma default_text_on_photo :
  exists w,
    add_text_watermark photos (working_copy photos (plain "RGB" 100 80 [10; 20; 30]))
                       defaults
    = (Some w, defaults).
Proof.
  apply (add_text_watermark_success photos _ defaults "@ghostmark" 4 40 12 block 56 64
           defaults 204); first [reflexivity | vm_compute; reflexivity].
Qed.

(** A text watermark comes back in mode RGBA with the width and height of
    the image it was given. *)
Theorem add_text_watermark_shape (lib : Library) (image : Image) (cfg : Config)
        (out : Image) (c' : Config) :
  add_text_watermark lib image cfg = (Some out, c') ->
  mode out = "RGBA" /\ width out = width image /\ height out = height image.
Proof.
  intros H. split; [eapply add_text_watermark_mode, H|].
  eapply text_result_size, H.
Qed.

Lemma add_text_watermark_shape_witness :
  exists out,
    add_text_watermark photos (plain "RGBA" 100 80 [10; 20; 30; 255]) defaults
    = (Some out, defaults) /\
    mode out = "RGBA" /\ width out = 100 /\ height out = 80.
Proof.
  destruct (add_text_watermark_success photos (plain "RGBA" 100 80 [10; 20; 30; 255])
              defaults "@ghostmark" 4 40 12 block 56 64 defaults 204
              eq_refl ltac:(vm_compute; reflexivity) eq_refl
              ltac:(vm_compute; reflexivity) ltac:(vm_compute; reflexivity))
    as (out & E).
  exists out. split; [exact E|].
  apply (add_text_watermark_shape photos (plain "RGBA" 100 80 [10; 20; 30; 255])
           defaults out defaults E).
Defined.


(** Whatever [process_image] returns has the width and height of the file. *)
Theorem process_image_keeps_size (lib : Library) (path : string) (cfg : Config)
        (src out : Image) (c' : Config) :
  open_file lib path = Some src ->
  process_image lib path cfg = (Some (Some out), c') ->
  width out = width src /\ height out = height src.
Proof.
  intros Ho H.
  destruct (working_copy_size lib src) as [Ww Wh].
  destruct (truthy (text cfg)) eqn:Ht.
  - rewrite (process_image_text _ _ _ _ Ho Ht) in H.
    destruct (add_text_watermark lib (working_copy lib src) cfg)
      as [[w|] c1] eqn:E; [|discriminate].
    injection H as <- _.
    destruct (text_result_size _ _ _ _ _ E) as (Hw & Hh).
    destruct (restore_mode_size lib (mode src) w) as [Rw Rh]. lia.
  - destruct (truthy (image_path cfg)) eqn:Hi.
    + rewrite (process_image_image _ _ _ _ Ho Ht Hi) in H.
      destruct (add_image_watermark lib (working_copy lib src) cfg)
        as [[w|] c1] eqn:E; [|discriminate].
      injection H as <- _.
      destruct (image_result_size _ _ _ _ _ E) as (Hw & Hh).
      destruct (restore_mode_size lib (mode src) w) as [Rw Rh]. lia.
    + rewrite (process_image_skipped _ _ _ _ Ho Ht Hi) in H.
      injection H as <- _. split; assumption.
Qed.

Lemma process_image_keeps_size_witness :
  exists out,
    process_image photos "input/photo.jpg" defaults = (Some (Some out), defaults) /\
    width out = 100 /\ height out = 80.
Proof.
  destruct default_text_on_photo as (w & E).
  pose proof (process_image_text_success photos "input/photo.jpg" defaults
                (plain "RGB" 100 80 [10; 20; 30]) w defaults eq_refl eq_refl E) as H.
  eexists. split; [exact H|].
  apply (process_image_keeps_size photos "input/photo.jpg" defaults
           (plain "RGB" 100 80 [10; 20; 30]) _ defaults eq_refl H).
Defined.

(** With a text or an image watermark configured, a file in mode RGBA, RGB,
    L or P comes back in its own mode. *)
Theorem watermarked_mode_is_the_files (lib : Library) (path : string)
        (cfg : Config) (src out : Image) (c' : Config) :
  open_file lib path = Some src ->
  mode src = "RGBA" \/ mode src = "RGB" \/ mode src = "L" \/ mode src = "P" ->
  truthy (text cfg) || truthy (image_path cfg) = true ->
  process_image lib path cfg = (Some (Some out), c') ->
  mode out = mode src.
Proof.
  intros Ho Hm Hc H.
  destruct (truthy (text cfg)) eqn:Ht.
  - rewrite (process_image_text _ _ _ _ Ho Ht) in H.
    destruct (add_text_watermark lib (working_copy lib src) cfg)
      as [[w|] c1] eqn:E; [|discriminate].
    injection H as <- _. apply restore_mode_mode; [|exact Hm].
    eapply add_text_watermark_mode, E.
  - cbn in Hc. rewrite (process_image_image _ _ _ _ Ho Ht Hc) in H.
    destruct (add_image_watermark lib (working_copy lib src) cfg)
      as [[w|] c1] eqn:E; [|discriminate].
    injection H as <- _. apply restore_mode_mode; [|exact Hm].
    eapply add_image_watermark_mode; [apply working_copy_mode|exact E].
Qed.

Lemma watermarked_mode_is_the_files_witness :
  exists out,
    process_image photos "input/photo.jpg" defaults = (Some (Some out), defaults) /\
    mode out = "RGB".
Proof.
  destruct default_text_on_photo as (w & E).
  pose proof (process_image_text_success photos "input/photo.jpg" defaults
                (plain "RGB" 100 80 [10; 20; 30]) w defaults eq_refl eq_refl E) as H.
  eexists. split; [exact H|].
  apply (watermarked_mode_is_the_files photos "input/photo.jpg" defaults
           (plain "RGB" 100 80 [10; 20; 30]) _ defaults eq_refl);
    [right; left; reflexivity|reflexivity|exact H].
Defined.

(** A file in a mode other than RGBA, RGB, L and P comes back in RGBA. *)
Theorem other_modes_come_back_rgba (lib : Library) (path : string) (cfg : Config)
        (src out : Image) (c' : Config) :
  open_file lib path = Some src ->
  mode src <> "RGBA" -> mode src <> "RGB" -> mode src <> "L" -> mode src <> "P" ->
  process_image lib path cfg = (Some (Some out), c') ->
  mode out = "RGBA".
Proof.
  intros Ho N1 N2 N3 N4 H.
  assert (R : forall w, mode w = "RGBA" -> mode (restore_mode lib (mode src) w) = "RGBA").
  { intros w Hw. unfold restore_mode.
    apply String.eqb_neq in N1, N2, N3, N4. rewrite N1, N2, N3, N4. exact Hw. }
  destruct (truthy (text cfg)) eqn:Ht.
  - rewrite (process_image_text _ _ _ _ Ho Ht) in H.
    destruct (add_text_watermark lib (working_copy lib src) cfg)
      as [[w|] c1] eqn:E; [|discriminate].
    injection H as <- _. apply R. eapply add_text_watermark_mode, E.
  - destruct (truthy (image_path cfg)) eqn:Hi.
    + rewrite (process_image_image _ _ _ _ Ho Ht Hi) in H.
      destruct (add_image_watermark lib (working_copy lib src) cfg)
        as [[w|] c1] eqn:E; [|discriminate].
      injection H as <- _. apply R.
      eapply add_image_watermark_mode; [apply working_copy_mode|exact E].
    + rewrite (process_image_skipped _ _ _ _ Ho Ht Hi) in H.
      injection H as <- _. apply working_copy_mode.
Qed.

Lemma other_modes_come_back_rgba_witness :
  exists out,
    process_image branded "input/scan.tif" defaults = (Some (Some out), defaults) /\
    mode out = "RGBA".
Proof.
  destruct (add_text_watermark_success branded
              (working_copy branded (plain "CMYK" 60 40 [0; 0; 0; 0]))
              defaults "@ghostmark" 2 40 12 block 18 26 defaults 204
              eq_refl ltac:(vm_compute; reflexivity) eq_refl
              ltac:(vm_compute; reflexivity) ltac:(vm_compute; reflexivity))
    as (w & E).
  pose proof (process_image_text_success branded "input/scan.tif" defaults
                (plain "CMYK" 60 40 [0; 0; 0; 0]) w defaults eq_refl eq_refl E) as H.
  eexists. split; [exact H|].
  apply (other_modes_come_back_rgba branded "input/scan.tif" defaults
           (plain "CMYK" 60 40 [0; 0; 0; 0]) _ defaults eq_refl);
    [discriminate|discriminate|discriminate|discriminate|exact H].
Defined.

(* ================================================================== *)
(** ** More on the pixels *)
(* ================================================================== *)

Section Pixels.
Variable lib : Library.

(** Where the glyphs of the text cover nothing, a text watermark leaves the
    pixel of the image as it was, whatever the opacity and the colour. *)
Theorem text_leaves_uncovered_pixels (image : Image) (cfg : Config)
        (label : string) (s tw th x y a : Z) (cover : Z -> Z -> Z) (c1 : Config) :
  mode image = "RGBA" ->
  text cfg = Some label ->
  _calculate_size image cfg = (Some s, cfg) ->
  rasterize lib s label = Some (tw, th, cover) ->
  _calculate_position image tw th cfg = (Some (x, y), c1) ->
  fill_alpha (opacity cfg) = Some a ->
  exists out,
    add_text_watermark lib image cfg = (Some out, c1) /\
    forall i j, cover (i - x) (j - y) = 0 -> getpixel out i j = getpixel image i j.
Proof.
  intros Hm Ht Hs Hr Hp Ha.
  unfold add_text_watermark, bind, config, or_raise, ret.
  rewrite Hs, Ht, Hr, Hp, Ha, Hm. cbn [String.eqb Ascii.eqb Bool.eqb negb].
  destruct (resolve_color (text_color cfg)) as [[r g] b].
  eexists. split; [reflexivity|].
  intros i j Hc.
  cbn [getpixel alpha_composite draw_text new]. rewrite Hc.
  rewrite blend8_0 by lia. reflexivity.
Qed.

(** The pixels of an image watermark: outside the box of the resized
    watermark the image is as it was, at any opacity; at an opacity of 1.0
    or more, a fully opaque pixel of the watermark replaces the pixel under
    it. *)
Theorem image_watermark_pasted (image file : Image) (cfg c1 : Config)
        (p : string) (s nw nh x y : Z) (px : Z -> Z -> Pixel) :
  mode image = "RGBA" ->
  image_path cfg = Some p -> open_file lib p = Some file ->
  _calculate_size image cfg = (Some s, cfg) ->
  new_size s (width file) (height file) = Some (nw, nh) ->
  resample lib (convert lib "RGBA" file) nw nh = Some px ->
  _calculate_position image nw nh cfg = (Some (x, y), c1) ->
  exists out,
    add_image_watermark lib image cfg = (Some out, c1) /\
    forall i j,
      inside image i j = true ->
      ((i < x \/ x + nw <= i \/ j < y \/ y + nh <= j) ->
       getpixel out i j = getpixel image i j) /\
      (ltb (opacity cfg) c1_0 = false ->
       x <= i < x + nw -> y <= j < y + nh ->
       forall r g b r' g' b' a',
         px (i - x) (j - y) = [r; g; b; 255] ->
         0 <= r <= 255 -> 0 <= g <= 255 -> 0 <= b <= 255 ->
         getpixel image i j = [r'; g'; b'; a'] ->
         getpixel out i j = [r; g; b; 255]).
Proof.
  intros Hm Hpath Hopen Hs Hn Hr Hp.
  unfold add_image_watermark, try_except, bind, config, or_raise, ret.
  rewrite Hpath, Hopen, Hs. cbn [width height convert].
  rewrite Hn. unfold resize. rewrite Hr. cbn [option_map].
  rewrite Hp, Hm. cbn [String.eqb Ascii.eqb Bool.eqb negb].
  eexists. split; [reflexivity|].
  intros i j Hin. unfold inside in Hin.
  assert (Hin0 : (0 <=? i) && (i <? width image) && (0 <=? j) && (j <? height image)
                 = true) by exact Hin.
  split.
  - intros Hout.
    cbn [getpixel paste_masked paste new]. unfold inside.
    cbn [width height paste new mode].
    rewrite !Z.sub_0_r, !Hin0. cbn [andb].
    assert (E : (0 <=? i - x) && (i - x <? nw) && (0 <=? j - y) && (j - y <? nh) = false).
    { destruct (Z.leb_spec 0 (i - x)), (Z.ltb_spec (i - x) nw),
        (Z.leb_spec 0 (j - y)), (Z.ltb_spec (j - y) nh); cbn; try reflexivity; lia. }
    destruct (ltb (opacity cfg) c1_0); cbn [width height enhance_alpha];
      rewrite E; reflexivity.
  - intros Hop Hx Hy r g b r' g' b' a' Hpx Hr0 Hg0 Hb0 Hsrc.
    rewrite Hop.
    cbn [getpixel paste_masked paste new]. unfold inside.
    cbn [width height paste new mode getpixel].
    rewrite !Z.sub_0_r, !Hin0. cbn [andb].
    assert (E : (0 <=? i - x) && (i - x <? nw) && (0 <=? j - y) && (j - y <? nh) = true).
    { destruct (Z.leb_spec 0 (i - x)), (Z.ltb_spec (i - x) nw),
        (Z.leb_spec 0 (j - y)), (Z.ltb_spec (j - y) nh); cbn; try reflexivity; lia. }
    rewrite E, Hpx, Hsrc. cbn [alpha_of blend_bands].
    rewrite !blend8_255 by lia. reflexivity.
Qed.
End Pixels.

Lemma text_leaves_uncovered_pixels_witness :
  exists out,
    add_text_watermark photos (plain "RGBA" 100 80 [10; 20; 30; 255]) defaults
    = (Some out, defaults) /\
    forall i j, block (i - 56) (j - 64) = 0 ->
                getpixel out i j = getpixel (plain "RGBA" 100 80 [10; 20; 30; 255]) i j.
Proof.
  apply (text_leaves_uncovered_pixels photos (plain "RGBA" 100 80 [10; 20; 30; 255])
           defaults "@ghostmark" 4 40 12 56 64 204 block defaults);
    first [reflexivity | vm_compute; reflexivity].
Defined.

Lemma image_watermark_pasted_witness :
  exists out,
    add_image_watermark branded (plain "RGBA" 100 80 [10; 20; 30; 255]) logo_config
    = (Some out, logo_config) /\
    getpixel out 0 0 = [10; 20; 30; 255] /\
    getpixel out 93 75 = [200; 100; 50; 255].
Proof.
  destruct (image_watermark_pasted branded (plain "RGBA" 100 80 [10; 20; 30; 255])
              (plain "RGBA" 2 1 [200; 100; 50; 255]) logo_config logo_config
              "logo.png" 4 4 2 92 74 (fun _ _ => [200; 100; 50; 255])
              eq_refl eq_refl eq_refl
              ltac:(vm_compute; reflexivity) ltac:(vm_compute; reflexivity)
              eq_refl ltac:(vm_compute; reflexivity))
    as (out & E & Hpx).
  exists out. split; [exact E|]. split.
  - apply (Hpx 0 0 eq_refl). lia.
  - apply (proj2 (Hpx 93 75 eq_refl) eq_refl ltac:(lia) ltac:(lia)
             200 100 50 10 20 30 255); first [reflexivity | lia].
Defined.


(* ================================================================== *)
(** ** More on the batch run *)
(* ================================================================== *)

Section Batch.
Variables (lib : Library) (out : Stdout).

Lemma process_image_total path cfg :
  exists r c', process_image lib path cfg = (Some r, c').
Proof.
  unfold process_image, try_except, ret.
  match goal with |- context [match ?m cfg with _ => _ end] =>
    destruct (m cfg) as [[r|] c'] end; eauto.
Qed.

Section Printing.
Hypothesis Hsaved : forall f, encodes out (saved_message f) = true.
Hypothesis Herror : encodes out error_message = true.

Lemma process_entry_step r e cfg :
  written lib r ->
  exists r' c',
    process_entry lib out r e cfg = (Some r', c') /\
    written lib r' /\
    processed_count r' + error_count r'
    = processed_count r + error_count r + (if supported e then 1 else 0) /\
    Z.of_nat (List.length (saved r')) - processed_count r'
    = Z.of_nat (List.length (saved r)) - processed_count r /\
    processed_count r <= processed_count r' /\ error_count r <= error_count r'.
Proof.
  intros Hw. unfold process_entry. destruct (supported e).
  - unfold try_except, bind, config, ret, raise, print.
    destruct (process_image_total (joinpath (input_folder cfg) (name e)) cfg)
      as ([w|] & c1 & ->).
    + match goal with |- context [save lib ?f ?i] => destruct (save lib f i) eqn:Es end.
      * rewrite Hsaved.
        eexists. eexists. split; [reflexivity|]. cbn [saved processed_count error_count].
        split.
        { unfold written in *. cbn [saved]. apply Forall_app. split; [exact Hw|].
          constructor; [exact Es|constructor]. }
        rewrite length_app. cbn [List.length]. lia.
      * rewrite Herror.
        eexists. eexists. split; [reflexivity|]. cbn [saved processed_count error_count].
        split; [exact Hw|]. lia.
    + eexists. eexists. split; [reflexivity|]. cbn [saved processed_count error_count].
      split; [exact Hw|]. lia.
  - exists r, cfg. split; [reflexivity|]. split; [exact Hw|]. lia.
Qed.

Lemma process_entries_steps entries : forall r cfg,
  written lib r ->
  exists r' c',
    process_entries lib out r entries cfg = (Some r', c') /\
    written lib r' /\
    processed_count r' + error_count r'
    = processed_count r + error_count r
      + Z.of_nat (List.length (filter supported entries)) /\
    Z.of_nat (List.length (saved r')) - processed_count r'
    = Z.of_nat (List.length (saved r)) - processed_count r /\
    processed_count r <= processed_count r' /\ error_count r <= error_count r'.
Proof.
  induction entries as [|e rest IH]; intros r cfg Hw; cbn [process_entries filter].
  - exists r, cfg. split; [reflexivity|]. split; [exact Hw|]. cbn. lia.
  - destruct (process_entry_step r e cfg Hw) as (r1 & c1 & E1 & W1 & S1 & L1 & P1 & X1).
    destruct (IH r1 c1 W1) as (r2 & c2 & E2 & W2 & S2 & L2 & P2 & X2).
    exists r2, c2. unfold bind. rewrite E1, E2. split; [reflexivity|].
    split; [exact W2|].
    destruct (supported e); cbn [List.length] in *; lia.
Qed.
End Printing.

(** [process_directory] raises when [mkdir] of the output folder raises, and
    when the enumeration of the input folder raises.  When the folder is
    made, the listing ends and the console can take the messages of lines
    317 and 322, the run returns; every supported entry is then counted
    once, as processed or as an error; the processed files are the saved
    ones, and each of them was written. *)
Theorem process_directory_counts (dir : Folder) (cfg : Config) :
  (made dir = false \/ exhausted dir = false ->
   fst (process_directory lib out dir cfg) = None) /\
  (made dir = true -> exhausted dir = true ->
   (forall f, encodes out (saved_message f) = true) ->
   encodes out error_message = true ->
   exists r c',
     process_directory lib out dir cfg = (Some r, c') /\
     processed_count r + error_count r
     = Z.of_nat (List.length (filter supported (listing dir))) /\
     processed_count r = Z.of_nat (List.length (saved r)) /\
     0 <= error_count r /\
     Forall (fun f => save lib (fst f) (snd f) = true) (saved r)).
Proof.
  split.
  - intros H. unfold process_directory, bind.
    destruct (made dir); [|reflexivity].
    destruct H as [H|H]; [discriminate|]. rewrite H.
    destruct (process_entries lib out (mkReport [] 0 0) (listing dir) cfg)
      as [[r|] c']; reflexivity.
  - intros Hmade Hend Hsaved Herror.
    destruct (process_entries_steps Hsaved Herror (listing dir) (mkReport [] 0 0) cfg)
      as (r & c' & E & W & S & L & P & X); [constructor|].
    exists r, c'. unfold process_directory, bind. rewrite Hmade, E, Hend.
    split; [reflexivity|]. cbn in S, L, P, X.
    repeat split; try lia. exact W.
Qed.

(** Entries that are no files or have another suffix change nothing: the
    run is the run over the supported entries alone. *)
Theorem process_directory_skips_others (entries : list DirEntry) (cfg : Config)
        (m x : bool) :
  process_directory lib out (mkFolder m entries x) cfg
  = process_directory lib out (mkFolder m (filter supported entries) x) cfg.
Proof.
  assert (H : forall r c,
             process_entries lib out r entries c
             = process_entries lib out r (filter supported entries) c).
  { induction entries as [|e rest IH]; intros r c; [reflexivity|].
    cbn [filter]. destruct (supported e) eqn:Es.
    - cbn [process_entries]. unfold bind.
      destruct (process_entry lib out r e c) as [[r1|] c1]; [apply IH|reflexivity].
    - cbn [process_entries]. unfold bind, process_entry. rewrite Es.
      cbn [ret]. apply IH. }
  unfold process_directory. cbn [made listing exhausted].
  destruct m; [|reflexivity]. unfold bind. rewrite H. reflexivity.
Qed.
End Batch.

(** On a console in ASCII the mark of line 317 cannot be printed: the file
    is written and counted, [print] raises, the handler's own [print]
    raises as well, and the run ends there. *)
Lemma ascii_console_aborts :
  fst (process_directory photos ascii_only (listed [mkEntry "photo.jpg" true])
                         defaults) = None.
Proof. vm_compute. reflexivity. Qed.

Lemma process_directory_counts_witness :
  exists r c',
    process_directory photos utf8
      (listed [mkEntry "photo.jpg" true; mkEntry "notes.txt" true])
      defaults = (Some r, c') /\
    processed_count r + error_count r = 1 /\
    processed_count r = Z.of_nat (List.length (saved r)) /\
    0 <= error_count r /\
    Forall (fun f => save photos (fst f) (snd f) = true) (saved r).
Proof.
  destruct (process_directory_counts photos utf8
              (listed [mkEntry "photo.jpg" true; mkEntry "notes.txt" true])
              defaults) as [_ H].
  apply H; reflexivity.
Defined.

(* ================================================================== *)
(** ** From the command line *)
(* ================================================================== *)

Import Main.

Lemma main_config_parse_args (o : Options) (cl : CommandLine) :
  main_config o cl = parse_args o cl.
Proof.
  unfold main_config, use_defaults, parse_args. cbn [text image_path].
  destruct (arg_text cl), (arg_image cl), (nonempty (DEFAULT_IMAGE o));
    reflexivity.
Qed.

(** The namespace of the parser always has a text or an image path, so the
    "no watermark specified" fallback of [main] changes nothing. *)
Theorem fallback_never_fires (o : Options) (cl : CommandLine) :
  main_config o cl = parse_args o cl /\
  (text (main_config o cl) <> None \/ image_path (main_config o cl) <> None).
Proof.
  unfold main_config, use_defaults, parse_args. cbn [text image_path].
  destruct (arg_text cl), (arg_image cl), (nonempty (DEFAULT_IMAGE o));
    cbn [negb text image_path]; split; try reflexivity;
    first [left; discriminate | right; discriminate].
Qed.

Lemma chosen_position_known v :
  existsb (String.eqb v) position_choices = true -> dict_mem POSITIONS v = true.
Proof.
  unfold position_choices, POSITIONS. cbn [existsb dict_mem]. intros H.
  repeat (apply orb_true_iff in H; destruct H as [H|H];
          [apply String.eqb_eq in H; subst v; reflexivity|]).
  discriminate.
Qed.

(** With the shipped options, an accepted command line gives a position
    that is one of the nine anchors, and a run leaves the configuration as
    [main] built it. *)
Theorem main_config_is_kept (lib : Library) (out : Stdout) (cl : CommandLine)
        (dir : Folder) :
  choices_ok cl = true ->
  dict_mem POSITIONS (position (main_config shipped cl)) = true /\
  snd (process_directory lib out dir (main_config shipped cl))
  = main_config shipped cl.
Proof.
  intros Hc.
  assert (Hp : dict_mem POSITIONS (position (main_config shipped cl)) = true).
  { rewrite (main_config_parse_args shipped cl).
    unfold parse_args. cbn [position].
    unfold choices_ok in Hc. apply andb_true_iff in Hc. destruct Hc as [Hc _].
    destruct (arg_position cl) as [v|]; cbn [given_or chosen] in *.
    - apply chosen_position_known, Hc.
    - reflexivity. }
  split; [exact Hp|].
  apply keeps_known; [apply keeps_process_directory|exact Hp].
Qed.

(** With the shipped options, [--image] alone does not give an image
    watermark: the text stays ["@ghostmark"], and [process_image] returns
    what it returns without [--image]. *)
Theorem image_option_alone_is_ignored (lib : Library) (cl : CommandLine)
        (path : string) :
  arg_text cl = None ->
  text (main_config shipped cl) = Some "@ghostmark" /\
  fst (process_image lib path (main_config shipped cl))
  = fst (process_image lib path (main_config shipped (without_image cl))).
Proof.
  intros Ht.
  rewrite (main_config_parse_args shipped cl).
  rewrite (main_config_parse_args shipped (without_image cl)).
  assert (E : parse_args shipped cl
              = set_image_path (parse_args shipped (without_image cl)) (arg_image cl)).
  { unfold parse_args, set_image_path, without_image.
    cbn [arg_input arg_output arg_text arg_image arg_position arg_opacity
         arg_size arg_pixel_size arg_text_color arg_prefix
         input_folder output_folder text image_path position opacity size
         pixel_size text_color prefix DEFAULT_IMAGE shipped nonempty
         String.eqb negb].
    destruct (arg_image cl); reflexivity. }
  split.
  - unfold parse_args. cbn [text]. rewrite Ht. reflexivity.
  - rewrite E.
    assert (Htext : truthy (text (parse_args shipped (without_image cl))) = true).
    { unfold parse_args, without_image. cbn [text arg_text]. rewrite Ht. reflexivity. }
    destruct (open_file lib path) as [src|] eqn:Ho.
    + rewrite (process_image_text lib path _ src Ho Htext).
      rewrite (process_image_text lib path (set_image_path _ _) src Ho Htext).
      rewrite add_text_ignores_image_path.
      destruct (add_text_watermark lib (working_copy lib src) _) as [[w|] c'];
        reflexivity.
    + rewrite !process_image_unreadable by exact Ho. reflexivity.
Qed.

Lemma main_config_is_kept_witness :
  dict_mem POSITIONS (position (main_config shipped no_options)) = true /\
  snd (process_directory photos utf8 (listed [mkEntry "photo.jpg" true])
                         (main_config shipped no_options))
  = main_config shipped no_options.
Proof.
  apply (main_config_is_kept photos utf8 no_options
           (listed [mkEntry "photo.jpg" true])).
  reflexivity.
Defined.

Lemma image_option_alone_is_ignored_witness :
  text (main_config shipped image_only) = Some "@ghostmark" /\
  fst (process_image photos "input/photo.jpg" (main_config shipped image_only))
  = fst (process_image photos "input/photo.jpg"
                       (main_config shipped (without_image image_only))).
Proof.
  apply (image_option_alone_is_ignored photos image_only "input/photo.jpg").
  reflexivity.
Defined.


(* ================================================================== *)
(** ** The alpha of the text *)
(* ================================================================== *)

Lemma binade_below p q N :
  0 < p -> 0 < q -> p <= N * q -> N < 2 ^ 52 -> binade p q < 52.
Proof.
  intros Hp Hq Hle HN.
  pose proof (binade_spec p q Hp Hq) as Hb. unfold in_binade, scale2 in Hb.
  destruct (Z.lt_ge_cases (binade p q) 52) as [|Hge]; [assumption|exfalso].
  destruct (Z.leb_spec 0 (binade p q)) as [_|]; [|lia].
  pose proof (pow2_le_mono 52 (binade p q) ltac:(lia)) as Hm.
  set (B := 2 ^ binade p q) in *. clearbody B.
  assert (q * 2 ^ 52 <= q * B) by (apply Z.mul_le_mono_nonneg_l; lia).
  assert (N * q < 2 ^ 52 * q) by (apply Z.mul_lt_mono_pos_r; lia).
  lia.
Qed.

(** Rounding and truncating a quotient that is at most the integer [N]
    gives at most [N]. *)
Lemma round_pos_le_int p q N :
  0 < p -> 0 < q -> p <= N * q -> N < 2 ^ 52 ->
  0 <= to_int (round_pos p q) <= N.
Proof.
  intros Hp Hq Hle HN.
  pose proof (binade_below p q N Hp Hq Hle HN) as Hb.
  unfold round_pos, prec, emin.
  set (e := Z.max (binade p q - (53 - 1)) (-1074)).
  assert (He : e < 0) by (unfold e; lia).
  unfold scale2. destruct (Z.leb_spec 0 e) as [|_]; [lia|].
  pose proof (pow2_gt0 (- e) ltac:(lia)) as HT.
  assert (Hm0 : 0 <= rne (p * 2 ^ (- e)) q) by (apply rne_ge_int; nia).
  replace (mk (rne (p * 2 ^ (- e)) q) e)
    with (mk (rne (p * 2 ^ (- e)) q) (- (- e))) by (f_equal; lia).
  rewrite to_int_neg_expo by lia.
  set (T := 2 ^ (- e)) in *. clearbody T.
  split; [apply Z.div_pos; lia|].
  assert (rne (p * T) q <= N * T).
  { apply rne_le_int; [lia|].
    replace (N * T * q) with (N * q * T) by ring.
    apply Z.mul_le_mono_nonneg_r; lia. }
  assert (rne (p * T) q / T < N + 1); [|lia].
  apply Z.div_lt_upper_bound; lia.
Qed.

(** For an opacity between 0.0 and 1.0, the alpha of the text,
    [int(255 * opacity)], lies between 0 and 255. *)
Theorem fill_alpha_in_range (o : float) :
  in_unit o -> exists a, fill_alpha o = Some a /\ 0 <= a <= 255.
Proof.
  intros [Hm He]. unfold fill_alpha.
  assert (H : 0 <= to_int (fmul (of_int 255) o) <= 255).
  { change (of_int 255) with (mk 255 0). unfold fmul. cbn [mant expo].
    destruct (Z.eq_dec (mant o) 0) as [E|Hne].
    { rewrite E, Z.mul_0_r. unfold scale2.
      destruct (0 <=? - (0 + expo o)); cbn; lia. }
    unfold scale2. replace (- (0 + expo o)) with (- expo o) by lia.
    destruct (Z.leb_spec 0 (expo o)) as [Hpos|Hneg].
    - (* the opacity is 1.0 *)
      pose proof (pow2_gt0 (expo o) Hpos) as HT.
      assert (Hm1 : mant o = 1) by nia.
      assert (He0 : expo o = 0).
      { destruct (Z.eq_dec (expo o) 0) as [|N]; [assumption|exfalso].
        pose proof (pow2_le_mono 1 (expo o) ltac:(lia)).
        change (2 ^ 1) with 2 in *. nia. }
      rewrite Hm1, He0. vm_compute. split; discriminate.
    - destruct (Z.leb_spec 0 (- expo o)) as [_|]; [|lia].
      rewrite Z.mul_1_l.
      pose proof (pow2_gt0 (- expo o) ltac:(lia)) as HT.
      rewrite round_q_pos by lia.
      apply round_pos_le_int; try lia. }
  exists (to_int (fmul (of_int 255) o)). split; [|exact H].
  destruct (Z.ltb_spec (Z.abs (to_int (fmul (of_int 255) o))) (2 ^ 1024)) as [|Hge];
    [reflexivity|exfalso].
  pose proof (pow2_le_mono 8 1024 ltac:(lia)). change (2 ^ 8) with 256 in *. lia.
Qed.

Lemma fill_alpha_in_range_witness :
  exists a, fill_alpha (mk 3602879701896397 (-52)) = Some a /\ 0 <= a <= 255.
Proof.
  apply (fill_alpha_in_range (mk 3602879701896397 (-52))).
  split; [cbn; lia|]. cbn. lia.
Defined.
